(** * The analytics engine: a Kafka consumer projecting events into Neo4j

    Shallow embedding of [analytics-engine/consumer.py].  The program pulls
    messages from the topic [new_listings], decodes each payload with
    [json.loads(x.decode('utf-8'))] and, for every decoded event, runs the
    fixed three-clause [MERGE] query inside one managed write transaction of
    a scoped session; errors raised inside the [try] block are printed and
    swallowed.

    The start of the program (the sleep, the two connections and the two
    banner lines) comes before the loop and is not modelled.  Libraries the
    program calls (the JSON decoder, the Kafka client, the Neo4j driver and
    server) are part of the environment.  The decoder is a
    parameter of the loop, the behaviour of the store during one managed
    transaction is an oracle supplied with each message, and the effect of
    a committed query on the stored graph follows Cypher's [MERGE]. *)

From Stdlib Require Import List String Ascii Strings.Byte ZArith Bool Arith Lia.
Import ListNotations.
Local Open Scope string_scope.
Local Open Scope list_scope.

#[local] Set Warnings "-register-all".

(** ** Python values produced by [json.loads] *)

(** A float is kept as its 64-bit pattern; the program never computes
    with one. *)
Inductive json : Type :=
| JNull
| JBool (b : bool)
| JInt (n : Z)
| JFloat (bits : Z)
| JStr (s : string)
| JArr (items : list json)
| JObj (members : list (string * json)).

Fixpoint json_eqb (x y : json) {struct x} : bool :=
  match x, y with
  | JNull, JNull => true
  | JBool a, JBool b => Bool.eqb a b
  | JInt a, JInt b => Z.eqb a b
  | JFloat a, JFloat b => Z.eqb a b
  | JStr a, JStr b => String.eqb a b
  | JArr xs, JArr ys =>
      (fix items_eqb (l : list json) (r : list json) {struct l} : bool :=
         match l, r with
         | [], [] => true
         | a :: l', b :: r' => json_eqb a b && items_eqb l' r'
         | _, _ => false
         end) xs ys
  | JObj xs, JObj ys =>
      (fix members_eqb (l : list (string * json)) (r : list (string * json))
           {struct l} : bool :=
         match l, r with
         | [], [] => true
         | (k, a) :: l', (k', b) :: r' =>
             String.eqb k k' && json_eqb a b && members_eqb l' r'
         | _, _ => false
         end) xs ys
  | _, _ => false
  end.

(** ** Exceptions *)

Inductive exn : Type :=
| UnicodeDecodeError
| JSONDecodeError
| KeyError (key : string)
| TypeError
| Neo4jError (code : string).

Inductive result (A : Type) : Type :=
| Ok (a : A)
| Raise (e : exn).
Arguments Ok {A} a.
Arguments Raise {A} e.

(** ** Subscripting: [data['user']]

    A dict is an association list in insertion order.  Only a dict can be
    indexed by a string; every other value raises [TypeError]. *)

Fixpoint dict_get (k : string) (d : list (string * json)) : option json :=
  match d with
  | [] => None
  | (k', v) :: d' => if String.eqb k k' then Some v else dict_get k d'
  end.

Definition subscript (data : json) (k : string) : result json :=
  match data with
  | JObj d =>
      match dict_get k d with
      | Some v => Ok v
      | None => Raise (KeyError k)
      end
  | _ => Raise TypeError
  end.

(** ** The stored graph *)

Inductive label : Type := User | Category.

Definition label_eqb (a b : label) : bool :=
  match a, b with
  | User, User | Category, Category => true
  | _, _ => false
  end.

(** A node carries its internal id, its label and its [name] property. *)
Record node : Type := mkNode { nid : nat; nlabel : label; nname : json }.

(** A [POSTED_IN] relationship from node [esrc] to node [edst]. *)
Record edge : Type := mkEdge { esrc : nat; edst : nat }.

Record graph : Type := mkGraph { nodes : list node; edges : list edge }.

Definition empty_graph : graph := mkGraph [] [].

Definition edge_eqb (a b : edge) : bool :=
  Nat.eqb (esrc a) (esrc b) && Nat.eqb (edst a) (edst b).

(** Names are compared as values, which is how Cypher compares strings. *)
Definition is_named (l : label) (v : json) (n : node) : bool :=
  label_eqb (nlabel n) l && json_eqb (nname n) v.

(** Ids of the nodes matched by the pattern [(:l {name: v})]. *)
Definition match_nodes (l : label) (v : json) (g : graph) : list nat :=
  map nid (filter (is_named l v) (nodes g)).

Definition ids (g : graph) : list nat := map nid (nodes g).

Definition fresh_id (g : graph) : nat := S (list_max (ids g)).

Definition add_node (n : node) (g : graph) : graph :=
  mkGraph (nodes g ++ [n]) (edges g).

Definition add_edge (e : edge) (g : graph) : graph :=
  mkGraph (nodes g) (edges g ++ [e]).

(** [MERGE (x:l {name: v})]: bind [x] to every matching node, or create one
    when nothing matches. *)
Definition merge_node (l : label) (v : json) (g : graph) : graph * list nat :=
  match match_nodes l v g with
  | [] => let i := fresh_id g in (add_node (mkNode i l v) g, [i])
  | ms => (g, ms)
  end.

Definition has_edge (i j : nat) (g : graph) : bool :=
  existsb (edge_eqb (mkEdge i j)) (edges g).

(** [MERGE (u)-[:POSTED_IN]->(c)] on one row with [u] and [c] bound. *)
Definition merge_edge (i j : nat) (g : graph) : graph :=
  if has_edge i j g then g else add_edge (mkEdge i j) g.

(** A clause is run once per incoming row, the rows in order. *)
Fixpoint merge_category_rows (v : json) (us : list nat) (g : graph)
  : graph * list (nat * nat) :=
  match us with
  | [] => (g, [])
  | u :: us' =>
      let (g1, cs) := merge_node Category v g in
      let (g2, rows) := merge_category_rows v us' g1 in
      (g2, map (pair u) cs ++ rows)
  end.

Fixpoint merge_edge_rows (rows : list (nat * nat)) (g : graph) : graph :=
  match rows with
  | [] => g
  | (u, c) :: rows' => merge_edge_rows rows' (merge_edge u c g)
  end.

(** The effect of the committed query
    [MERGE (u:User {name: $user}) MERGE (c:Category {name: $category})
     MERGE (u)-[:POSTED_IN]->(c)]. *)
Definition upsert (user category : json) (g : graph) : graph :=
  let (g1, us) := merge_node User user g in
  let (g2, rows) := merge_category_rows category us g1 in
  merge_edge_rows rows g2.

Definition count_nodes (l : label) (v : json) (g : graph) : nat :=
  List.length (match_nodes l v g).

Definition count_edges (i j : nat) (g : graph) : nat :=
  List.length (filter (edge_eqb (mkEdge i j)) (edges g)).

(** The invariant of section 3 of the specification: ids identify nodes, a
    name is held by at most one node of each label, a pair of nodes is
    joined by at most one relationship, and no relationship dangles. *)
Record wf (g : graph) : Prop := mkWf {
  wf_ids : NoDup (ids g);
  wf_names : forall l v, count_nodes l v g <= 1;
  wf_edges : forall i j, count_edges i j g <= 1;
  wf_ends : forall e, In e (edges g) -> In (esrc e) (ids g) /\ In (edst e) (ids g)
}.

Definition query : string :=
  ("MERGE (u:User {name: $user}) " ++
   "MERGE (c:Category {name: $category}) " ++
   "MERGE (u)-[:POSTED_IN]->(c)")%string.

(** ** Effects: the store, the console and the driver calls

    The store holds the committed graph and, while a transaction is open,
    the graph as that transaction sees it.  A computation runs on the store
    and yields a value or an exception, the new store and the events it
    produced, oldest first. *)

Record store : Type := mkStore { committed : graph; working : option graph }.

(** The three lines the loop prints, by their format string. *)
Inductive line : Type :=
| LineReceived (data : json)
| LineGraphUpdated (user category : json)
| LineNeo4jError (e : exn).

Inductive event : Type :=
| Print (l : line)
| SessionOpen
| SessionClose
| WriteTransaction
| TxBegin
| TxRun (q : string) (user category : json)
| TxCommit
| TxRollback.

Definition M (A : Type) : Type := store -> result A * store * list event.

Definition ret {A} (a : A) : M A := fun s => (Ok a, s, []).

Definition bind {A B} (m : M A) (k : A -> M B) : M B :=
  fun s =>
    match m s with
    | (Ok a, s1, t1) => let '(r, s2, t2) := k a s1 in (r, s2, t1 ++ t2)
    | (Raise e, s1, t1) => (Raise e, s1, t1)
    end.

Notation "x <- m ;; k" := (bind m (fun x => k))
  (at level 61, m at next level, right associativity).
Notation "m ;; k" := (bind m (fun _ => k))
  (at level 61, right associativity).

Definition raise {A} (e : exn) : M A := fun s => (Raise e, s, []).

Definition lift {A} (r : result A) : M A :=
  match r with
  | Ok a => ret a
  | Raise e => raise e
  end.

Definition emit (ev : event) : M unit := fun s => (Ok tt, s, [ev]).

Definition print (l : line) : M unit := emit (Print l).

(** [try: m except Exception as e: h e] *)
Definition try_except {A} (m : M A) (h : exn -> M A) : M A :=
  fun s =>
    match m s with
    | (Raise e, s1, t1) => let '(r, s2, t2) := h e s1 in (r, s2, t1 ++ t2)
    | done => done
    end.

(** [with driver.session() as session: body]: the session is closed when
    the block is left, by its end or by an exception, which then goes on. *)
Definition with_session {A} (body : M A) : M A :=
  emit SessionOpen ;;
  try_except (a <- body ;; emit SessionClose ;; ret a)
             (fun e => emit SessionClose ;; raise e).

(** ** The driver's managed write transaction

    What the store does during one call of [session.write_transaction] is
    given by the environment: the attempts that fail and are tried again by
    the driver, then the attempt that ends the call. *)

Inductive failure : Type :=
| BeginFails (e : exn)
| RunFails (e : exn)
| CommitFails (e : exn).

Inductive attempt : Type :=
| Fails (f : failure)
| Commits.

Record write_oracle : Type :=
  mkOracle { retried : list failure; final : attempt }.

(** The transaction handed to the transaction function: the error its
    [run] raises, if any. *)
Definition tx : Type := option exn.

Definition tx_of (a : attempt) : tx :=
  match a with
  | Fails (RunFails e) => Some e
  | _ => None
  end.

Definition open_transaction (a : attempt) : M unit :=
  emit TxBegin ;;
  match a with
  | Fails (BeginFails e) => raise e
  | _ => fun s => (Ok tt, mkStore (committed s) (Some (committed s)), [])
  end.

(** [tx.run(query, user=..., category=...)] for the query of this program. *)
Definition tx_run (t : tx) (q : string) (user category : json) : M unit :=
  emit (TxRun q user category) ;;
  match t with
  | Some e => raise e
  | None =>
      fun s =>
        (Ok tt, mkStore (committed s) (option_map (upsert user category) (working s)), [])
  end.

Definition tx_close : M unit :=
  emit TxRollback ;;
  fun s => (Ok tt, mkStore (committed s) None, []).

Definition tx_commit (a : attempt) : M unit :=
  emit TxCommit ;;
  match a with
  | Fails (CommitFails e) =>
      (fun s => (Ok tt, mkStore (committed s) None, [])) ;; raise e
  | _ =>
      fun s =>
        (Ok tt,
         mkStore (match working s with Some g => g | None => committed s end) None,
         [])
  end.

Definition run_attempt (a : attempt) (fn : tx -> M unit) : M unit :=
  open_transaction a ;;
  try_except (fn (tx_of a)) (fun e => tx_close ;; raise e) ;;
  tx_commit a.

Fixpoint run_transaction (fs : list failure) (last : attempt)
         (fn : tx -> M unit) : M unit :=
  match fs with
  | [] => run_attempt last fn
  | f :: fs' =>
      try_except (run_attempt (Fails f) fn)
                 (fun _ => run_transaction fs' last fn)
  end.

Definition write_transaction (o : write_oracle)
           (fn : tx -> json -> json -> M unit) (a b : json) : M unit :=
  emit WriteTransaction ;;
  run_transaction (retried o) (final o) (fun t => fn t a b).

(** ** The program *)

(** [def update_graph(tx, user, category)] *)
Definition update_graph (t : tx) (user category : json) : M unit :=
  tx_run t query user category ;;
  print (LineGraphUpdated user category).

(** The body of [for message in consumer], with [data = message.value]. *)
Definition iteration (data : json) (o : write_oracle) : M unit :=
  print (LineReceived data) ;;
  try_except
    (with_session
       (user <- lift (subscript data "user") ;;
        category <- lift (subscript data "category") ;;
        write_transaction o update_graph user category))
    (fun e => print (LineNeo4jError e)).

(** A run of the loop over the messages delivered so far either waits for
    the next message or has ended with an exception nothing caught. *)
Inductive outcome : Type :=
| Waiting (s : store) (t : list event)
| Crashed (e : exn) (s : store) (t : list event).

Definition after (t : list event) (o : outcome) : outcome :=
  match o with
  | Waiting s t' => Waiting s (t ++ t')
  | Crashed e s t' => Crashed e s (t ++ t')
  end.

Definition final_store (o : outcome) : store :=
  match o with Waiting s _ | Crashed _ s _ => s end.

Definition events (o : outcome) : list event :=
  match o with Waiting _ t | Crashed _ _ t => t end.

Definition crashed (o : outcome) : bool :=
  match o with Waiting _ _ => false | Crashed _ _ _ => true end.

(** A delivered message: its payload, and what the store will do during the
    write made for it. *)
Abbreviation message := (list byte * write_oracle)%type.

Section Loop.

(** [bytes.decode('utf-8')] and [json.loads], from Python's library.  A
    Python [str] is held as the bytes of its UTF-8 form. *)
Variable decode_utf8 : list byte -> result string.
Variable json_loads : string -> result json.

(** [value_deserializer=lambda x: json.loads(x.decode('utf-8'))] *)
Definition value_deserializer (x : list byte) : result json :=
  match decode_utf8 x with
  | Ok s => json_loads s
  | Raise e => Raise e
  end.

(** [for message in consumer: ...]: the consumer deserializes the value
    when it yields the message, outside the [try] of the body. *)
Fixpoint consume (ms : list message) (s : store) : outcome :=
  match ms with
  | [] => Waiting s []
  | (x, o) :: rest =>
      match value_deserializer x with
      | Raise e => Crashed e s []
      | Ok data =>
          match iteration data o s with
          | (Ok _, s1, t1) => after t1 (consume rest s1)
          | (Raise e, s1, t1) => Crashed e s1 t1
          end
      end
  end.

End Loop.

(** ** A decoder to run the loop on concrete payloads

    [decode] checks that the bytes are well-formed UTF-8.  [loads] reads the
    fragment of JSON without floats and without [\u] escapes: objects,
    arrays, strings, integers, [true], [false] and [null], with a repeated
    key keeping its last value as in a Python dict.  The statements below
    hold for every decoder; this one serves the concrete runs. *)
Module PyLib.

Definition in_range (lo hi : N) (b : byte) : bool :=
  (lo <=? Byte.to_N b)%N && (Byte.to_N b <=? hi)%N.

Definition continuation : byte -> bool := in_range 128 191.

Fixpoint well_formed (bs : list byte) : bool :=
  match bs with
  | [] => true
  | b0 :: r0 =>
      if in_range 0 127 b0 then well_formed r0
      else
        match r0 with
        | [] => false
        | b1 :: r1 =>
            if in_range 194 223 b0 then continuation b1 && well_formed r1
            else
              match r1 with
              | [] => false
              | b2 :: r2 =>
                  let second :=
                    if in_range 224 224 b0 then in_range 160 191 b1
                    else if in_range 237 237 b0 then in_range 128 159 b1
                    else continuation b1 in
                  if in_range 224 239 b0
                  then second && continuation b2 && well_formed r2
                  else
                    match r2 with
                    | [] => false
                    | b3 :: r3 =>
                        let second4 :=
                          if in_range 240 240 b0 then in_range 144 191 b1
                          else if in_range 244 244 b0 then in_range 128 143 b1
                          else continuation b1 in
                        in_range 240 244 b0 && second4 && continuation b2
                        && continuation b3 && well_formed r3
                    end
              end
        end
  end.

Definition decode (bs : list byte) : result string :=
  if well_formed bs then Ok (string_of_list_byte bs)
  else Raise UnicodeDecodeError.

Definition code (c : ascii) : N := N_of_ascii c.

Definition is_ws (c : ascii) : bool :=
  (code c =? 32)%N || (code c =? 9)%N || (code c =? 10)%N || (code c =? 13)%N.

Definition is_digit (c : ascii) : bool :=
  (48 <=? code c)%N && (code c <=? 57)%N.

Fixpoint skip_ws (s : string) : string :=
  match s with
  | String c r => if is_ws c then skip_ws r else s
  | EmptyString => s
  end.

(** The characters of a string literal after its opening quote. *)
Fixpoint scan_string (s : string) : option (string * string) :=
  match s with
  | EmptyString => None
  | String c r =>
      if (code c =? 34)%N then Some (EmptyString, r)
      else if (code c =? 92)%N then
        match r with
        | String e r' =>
            let unescaped :=
              if (code e =? 34)%N then Some e
              else if (code e =? 92)%N then Some e
              else if (code e =? 47)%N then Some e
              else if (code e =? 98)%N then Some (ascii_of_N 8)
              else if (code e =? 102)%N then Some (ascii_of_N 12)
              else if (code e =? 110)%N then Some (ascii_of_N 10)
              else if (code e =? 114)%N then Some (ascii_of_N 13)
              else if (code e =? 116)%N then Some (ascii_of_N 9)
              else None in
            match unescaped, scan_string r' with
            | Some a, Some (body, rest) => Some (String a body, rest)
            | _, _ => None
            end
        | EmptyString => None
        end
      else if (code c <? 32)%N then None
      else
        match scan_string r with
        | Some (body, rest) => Some (String c body, rest)
        | None => None
        end
  end.

Fixpoint scan_digits (acc : Z) (s : string) : Z * string :=
  match s with
  | String c r =>
      if is_digit c
      then scan_digits (10 * acc + Z.of_N (code c) - 48) r
      else (acc, s)
  | EmptyString => (acc, s)
  end.

Definition starts_fraction (s : string) : bool :=
  match s with
  | String c _ => (code c =? 46)%N || (code c =? 101)%N || (code c =? 69)%N
  | EmptyString => false
  end.

(** An integer literal: no leading zero, no fraction, no exponent. *)
Definition scan_int (s : string) : option (Z * string) :=
  match s with
  | String c r =>
      if (code c =? 48)%N then
        if starts_fraction r then None else Some (0%Z, r)
      else if is_digit c then
        let (n, rest) := scan_digits 0 s in
        if starts_fraction rest then None else Some (n, rest)
      else None
  | EmptyString => None
  end.

Fixpoint drop_prefix (p s : string) : option string :=
  match p, s with
  | EmptyString, _ => Some s
  | String a p', String b s' =>
      if Ascii.eqb a b then drop_prefix p' s' else None
  | String _ _, EmptyString => None
  end.

Fixpoint dict_set (k : string) (v : json) (d : list (string * json))
  : list (string * json) :=
  match d with
  | [] => [(k, v)]
  | (k', v') :: d' =>
      if String.eqb k k' then (k, v) :: d' else (k', v') :: dict_set k v d'
  end.

Section Composite.

Variable value : string -> option (json * string).

(** After a first element: [, element]* then the closing bracket. *)
Fixpoint more_items (n : nat) (acc : list json) (s : string)
  : option (json * string) :=
  match n with
  | O => None
  | S n' =>
      match skip_ws s with
      | String c r =>
          if (code c =? 93)%N then Some (JArr (rev acc), r)
          else if (code c =? 44)%N then
            match value r with
            | Some (v, r') => more_items n' (v :: acc) r'
            | None => None
            end
          else None
      | EmptyString => None
      end
  end.

Definition items (n : nat) (s : string) : option (json * string) :=
  match skip_ws s with
  | String c r =>
      if (code c =? 93)%N then Some (JArr [], r)
      else
        match value s with
        | Some (v, r') => more_items n [v] r'
        | None => None
        end
  | EmptyString => None
  end.

(** One ["key" : value] pair. *)
Definition member (s : string) : option (string * json * string) :=
  match skip_ws s with
  | String c r =>
      if (code c =? 34)%N then
        match scan_string r with
        | Some (k, r1) =>
            match skip_ws r1 with
            | String c1 r2 =>
                if (code c1 =? 58)%N then
                  match value r2 with
                  | Some (v, r3) => Some (k, v, r3)
                  | None => None
                  end
                else None
            | EmptyString => None
            end
        | None => None
        end
      else None
  | EmptyString => None
  end.

Fixpoint more_members (n : nat) (acc : list (string * json)) (s : string)
  : option (json * string) :=
  match n with
  | O => None
  | S n' =>
      match skip_ws s with
      | String c r =>
          if (code c =? 125)%N then Some (JObj acc, r)
          else if (code c =? 44)%N then
            match member r with
            | Some (k, v, r') => more_members n' (dict_set k v acc) r'
            | None => None
            end
          else None
      | EmptyString => None
      end
  end.

Definition members (n : nat) (s : string) : option (json * string) :=
  match skip_ws s with
  | String c r =>
      if (code c =? 125)%N then Some (JObj [], r)
      else
        match member s with
        | Some (k, v, r') => more_members n [(k, v)] r'
        | None => None
        end
  | EmptyString => None
  end.

End Composite.

Fixpoint value (fuel : nat) (s : string) : option (json * string) :=
  match fuel with
  | O => None
  | S fuel' =>
      match skip_ws s with
      | String c r =>
          if (code c =? 123)%N then members (value fuel') (String.length r) r
          else if (code c =? 91)%N then items (value fuel') (String.length r) r
          else if (code c =? 34)%N then
            match scan_string r with
            | Some (body, rest) => Some (JStr body, rest)
            | None => None
            end
          else if (code c =? 45)%N then
            match scan_int r with
            | Some (n, rest) => Some (JInt (- n), rest)
            | None => None
            end
          else if is_digit c then
            match scan_int (String c r) with
            | Some (n, rest) => Some (JInt n, rest)
            | None => None
            end
          else
            match drop_prefix "true" (String c r),
                  drop_prefix "false" (String c r),
                  drop_prefix "null" (String c r) with
            | Some rest, _, _ => Some (JBool true, rest)
            | _, Some rest, _ => Some (JBool false, rest)
            | _, _, Some rest => Some (JNull, rest)
            | _, _, _ => None
            end
      | EmptyString => None
      end
  end.

Definition loads (s : string) : result json :=
  match value (S (String.length s)) s with
  | Some (v, rest) =>
      match skip_ws rest with
      | EmptyString => Ok v
      | String _ _ => Raise JSONDecodeError
      end
  | None => Raise JSONDecodeError
  end.

(** Payloads are written with ['] for the double quote. *)
Fixpoint quotes (s : string) : string :=
  match s with
  | EmptyString => EmptyString
  | String c r =>
      String (if (code c =? 39)%N then ascii_of_N 34 else c) (quotes r)
  end.

Definition bytes (s : string) : list byte := list_byte_of_string (quotes s).

End PyLib.

Definition run (ms : list message) (s : store) : outcome :=
  consume PyLib.decode PyLib.loads ms s.

Definition reachable : write_oracle := mkOracle [] Commits.

Definition empty_store : store := mkStore empty_graph None.

(** Payloads for the concrete runs. *)
Definition alice_electronics : list byte :=
  PyLib.bytes "{'user':'alice','category':'electronics'}".

Definition alice_books : list byte :=
  PyLib.bytes "{'user': 'alice', 'category': 'books'}".

Definition bob_books : list byte :=
  PyLib.bytes "{'user':'bob','category':'books'}".

Definition alice_electronics_priced : list byte :=
  PyLib.bytes "{'id': 7, 'user':'alice', 'price': [10, 'EUR'], 'category':'electronics'}".

Definition no_category : list byte := PyLib.bytes "{'user':'alice'}".

Definition not_strings : list byte :=
  PyLib.bytes "{'user': 42, 'category': null}".

Definition truncated : list byte := PyLib.bytes "{'user':'alice','category':".

Definition unreachable : write_oracle :=
  mkOracle [BeginFails (Neo4jError "ServiceUnavailable")]
           (Fails (BeginFails (Neo4jError "ServiceUnavailable"))).

Definition commit_lost : write_oracle :=
  mkOracle [] (Fails (CommitFails (Neo4jError "SessionExpired"))).

(** ** Reading the oracle and the trace *)

Definition failure_exn (f : failure) : exn :=
  match f with BeginFails e | RunFails e | CommitFails e => e end.

(** What [write_transaction] returns or raises, by its last attempt. *)
Definition attempt_result (a : attempt) : result unit :=
  match a with
  | Fails f => Raise (failure_exn f)
  | Commits => Ok tt
  end.

(** The committed graph after an attempt made for [user] and [category]. *)
Definition attempt_graph (a : attempt) (user category : json) (g : graph)
  : graph :=
  match a with
  | Fails _ => g
  | Commits => upsert user category g
  end.

Definition attempt_events (a : attempt) (user category : json) : list event :=
  match a with
  | Fails (BeginFails _) => [TxBegin]
  | Fails (RunFails _) => [TxBegin; TxRun query user category; TxRollback]
  | Fails (CommitFails _) | Commits =>
      [TxBegin; TxRun query user category;
       Print (LineGraphUpdated user category); TxCommit]
  end.

Definition transaction_events (o : write_oracle) (user category : json)
  : list event :=
  flat_map (fun f => attempt_events (Fails f) user category) (retried o)
  ++ attempt_events (final o) user category.

Definition error_line (a : attempt) : list event :=
  match a with
  | Fails f => [Print (LineNeo4jError (failure_exn f))]
  | Commits => []
  end.

(** Events of a transaction: its calls and the line printed inside it. *)
Definition is_tx_event (ev : event) : bool :=
  match ev with
  | TxBegin | TxRun _ _ _ | TxCommit | TxRollback
  | Print (LineGraphUpdated _ _) => true
  | _ => false
  end.

Definition is_write_transaction (ev : event) : bool :=
  match ev with WriteTransaction => true | _ => false end.

Definition is_session_event (ev : event) : bool :=
  match ev with SessionOpen | SessionClose => true | _ => false end.

(** The committed graph after one iteration of the loop. *)
Definition step_graph (data : json) (o : write_oracle) (g : graph) : graph :=
  match subscript data "user", subscript data "category" with
  | Ok u, Ok c => attempt_graph (final o) u c g
  | _, _ => g
  end.

(** ** Reading a whole run *)


(** Ids of the nodes that carry label [l]. *)
Definition labelled (l : label) (g : graph) : list nat :=
  map nid (filter (fun n => label_eqb (nlabel n) l) (nodes g)).

(** Every relationship goes from a User node to a Category node. *)
Definition typed (g : graph) : Prop :=
  forall e, In e (edges g) ->
            In (esrc e) (labelled User g) /\ In (edst e) (labelled Category g).

(** The events the loop body receives: the values of the messages up to
    the first payload the deserializer rejects. *)
Fixpoint received (decode_utf8 : list byte -> result string)
         (json_loads : string -> result json) (ms : list message)
  : list (json * write_oracle) :=
  match ms with
  | [] => []
  | (x, o) :: rest =>
      match value_deserializer decode_utf8 json_loads x with
      | Ok data => (data, o) :: received decode_utf8 json_loads rest
      | Raise _ => []
      end
  end.

(** One iteration after the other on the committed graph. *)
Definition applied (ds : list (json * write_oracle)) (g : graph) : graph :=
  fold_left (fun g d => step_graph (fst d) (snd d) g) ds g.




Definition a_list : list byte := PyLib.bytes "['alice', 'electronics']".

(** * Properties *)

(** ** Equality of values *)

Section JsonInduction.

Variable P : json -> Prop.
Hypothesis HNull : P JNull.
Hypothesis HBool : forall b, P (JBool b).
Hypothesis HInt : forall n, P (JInt n).
Hypothesis HFloat : forall bits, P (JFloat bits).
Hypothesis HStr : forall s, P (JStr s).
Hypothesis HArr : forall items, Forall P items -> P (JArr items).
Hypothesis HObj :
  forall members, Forall (fun kv => P (snd kv)) members -> P (JObj members).

Fixpoint json_nested_ind (x : json) : P x :=
  match x with
  | JNull => HNull
  | JBool b => HBool b
  | JInt n => HInt n
  | JFloat bits => HFloat bits
  | JStr s => HStr s
  | JArr items =>
      HArr items ((fix all (l : list json) : Forall P l :=
               match l with
               | [] => Forall_nil _
               | a :: l' => Forall_cons a (json_nested_ind a) (all l')
               end) items)
  | JObj members =>
      HObj members ((fix all (l : list (string * json))
               : Forall (fun kv => P (snd kv)) l :=
               match l with
               | [] => Forall_nil _
               | kv :: l' =>
                   Forall_cons kv (json_nested_ind (snd kv)) (all l')
               end) members)
  end.

End JsonInduction.

Lemma json_eqb_eq (x y : json) : json_eqb x y = true <-> x = y.
Proof.
  revert y. induction x as [| b | n | bits | s | xs IH | xs IH]
    using json_nested_ind; intros y; destruct y; simpl;
    try (split; [discriminate | congruence]); try tauto.
  - rewrite Bool.eqb_true_iff. split; congruence.
  - rewrite Z.eqb_eq. split; congruence.
  - rewrite Z.eqb_eq. split; congruence.
  - rewrite String.eqb_eq. split; congruence.
  - revert items. induction IH as [| a l Ha _ IHl]; intros [| b r]; simpl;
      try (split; [discriminate | congruence]); try tauto.
    rewrite andb_true_iff, Ha, IHl. split.
    + intros [-> E]. congruence.
    + intros E. injection E as -> ->. tauto.
  - revert members. induction IH as [| [k a] l Ha _ IHl]; intros [| [k' b] r];
      simpl in *; try (split; [discriminate | congruence]); try tauto.
    rewrite !andb_true_iff, String.eqb_eq, Ha, IHl. split.
    + intros [[-> ->] E]. congruence.
    + intros E. injection E as -> -> ->. tauto.
Qed.

Lemma json_eqb_refl (x : json) : json_eqb x x = true.
Proof. now apply json_eqb_eq. Qed.

Lemma json_eqb_neq (x y : json) : x <> y -> json_eqb x y = false.
Proof.
  intros H. destruct (json_eqb x y) eqn:E; [|reflexivity].
  now apply json_eqb_eq in E.
Qed.

Lemma label_eqb_eq (a b : label) : label_eqb a b = true <-> a = b.
Proof. destruct a, b; simpl; split; congruence. Qed.

Lemma edge_eqb_eq (a b : edge) : edge_eqb a b = true <-> a = b.
Proof.
  destruct a as [i j], b as [i' j']. unfold edge_eqb. simpl.
  rewrite andb_true_iff, !Nat.eqb_eq. split.
  - intros [-> ->]. reflexivity.
  - intros E. injection E as -> ->. tauto.
Qed.

(** ** The graph under [MERGE] *)

Lemma wf_empty : wf empty_graph.
Proof.
  split; simpl; auto using NoDup_nil.
Qed.

Lemma in_ids_lt_fresh (g : graph) (i : nat) : In i (ids g) -> i < fresh_id g.
Proof.
  intros H. unfold fresh_id.
  assert (F : Forall (fun k => k <= list_max (ids g)) (ids g))
    by (apply list_max_le; lia).
  rewrite Forall_forall in F. specialize (F i H). lia.
Qed.

Lemma fresh_not_in_ids (g : graph) : ~ In (fresh_id g) (ids g).
Proof. intros H. apply in_ids_lt_fresh in H. lia. Qed.

Lemma in_match_nodes (l : label) (v : json) (g : graph) (i : nat) :
  In i (match_nodes l v g) <->
  exists n, In n (nodes g) /\ nid n = i /\ nlabel n = l /\ nname n = v.
Proof.
  unfold match_nodes. rewrite in_map_iff. split.
  - intros (n & E & H). apply filter_In in H as [H N]. unfold is_named in N.
    apply andb_true_iff in N as [L V].
    apply label_eqb_eq in L. apply json_eqb_eq in V. eauto.
  - intros (n & H & E & L & V). exists n. split; [assumption|].
    apply filter_In. split; [assumption|]. unfold is_named.
    apply andb_true_iff. split; [now apply label_eqb_eq | now apply json_eqb_eq].
Qed.

Lemma match_nodes_in_ids (l : label) (v : json) (g : graph) (i : nat) :
  In i (match_nodes l v g) -> In i (ids g).
Proof.
  intros H. apply in_match_nodes in H as (n & H & E & _). subst i.
  unfold ids. now apply in_map.
Qed.

Lemma map_injective_on {A B} (f : A -> B) (l : list A) (a b : A) :
  NoDup (map f l) -> In a l -> In b l -> f a = f b -> a = b.
Proof.
  induction l as [| x l IH]; simpl; [tauto|].
  intros N Ha Hb E. inversion N as [| ? ? Hx N']; subst.
  destruct Ha as [-> | Ha], Hb as [-> | Hb]; auto.
  - exfalso. apply Hx. rewrite E. now apply in_map.
  - exfalso. apply Hx. rewrite <- E. now apply in_map.
Qed.

(** Nodes of different label or name have different ids. *)
Lemma match_nodes_apart (g : graph) (l l' : label) (v v' : json) (i i' : nat) :
  wf g -> In i (match_nodes l v g) -> In i' (match_nodes l' v' g) ->
  l <> l' \/ v <> v' -> i <> i'.
Proof.
  intros W H H' D E. subst i'.
  apply in_match_nodes in H as (n & Hn & En & L & V).
  apply in_match_nodes in H' as (n' & Hn' & En' & L' & V').
  assert (n = n').
  { apply (map_injective_on nid (nodes g)); auto.
    - exact (wf_ids _ W).
    - congruence. }
  subst n'. destruct D; congruence.
Qed.

Lemma match_nodes_add_node (l : label) (v : json) (n : node) (g : graph) :
  match_nodes l v (add_node n g) =
  match_nodes l v g ++ (if is_named l v n then [nid n] else []).
Proof.
  unfold match_nodes, add_node. simpl. rewrite filter_app, map_app. simpl.
  now destruct (is_named l v n).
Qed.

Lemma count_edges_add_edge (i j : nat) (e : edge) (g : graph) :
  count_edges i j (add_edge e g) =
  count_edges i j g + (if edge_eqb (mkEdge i j) e then 1 else 0).
Proof.
  unfold count_edges, add_edge. simpl. rewrite filter_app, length_app. simpl.
  now destruct (edge_eqb (mkEdge i j) e).
Qed.

Lemma has_edge_false (i j : nat) (g : graph) :
  has_edge i j g = false -> count_edges i j g = 0.
Proof.
  unfold has_edge, count_edges. induction (edges g) as [| e l IH]; simpl; auto.
  intros H. apply orb_false_iff in H as [-> H]. auto.
Qed.

Lemma has_edge_true (i j : nat) (g : graph) :
  has_edge i j g = true -> 1 <= count_edges i j g.
Proof.
  unfold has_edge, count_edges. induction (edges g) as [| e l IH]; simpl.
  - discriminate.
  - destruct (edge_eqb (mkEdge i j) e); simpl; [lia | auto].
Qed.

Lemma wf_add_node (l : label) (v : json) (g : graph) :
  wf g -> match_nodes l v g = [] -> wf (add_node (mkNode (fresh_id g) l v) g).
Proof.
  intros W E. split.
  - unfold ids, add_node. simpl. rewrite map_app. simpl.
    apply NoDup_app; [exact (wf_ids _ W) | repeat constructor; auto |].
    intros a Ha [<- | []]. now apply fresh_not_in_ids in Ha.
  - intros l' v'. unfold count_nodes. rewrite match_nodes_add_node, length_app.
    destruct (is_named l' v' _) eqn:N; simpl.
    + unfold is_named in N. simpl in N. apply andb_true_iff in N as [L V].
      apply label_eqb_eq in L. apply json_eqb_eq in V. subst. now rewrite E.
    + pose proof (wf_names _ W l' v') as H. unfold count_nodes in H. lia.
  - exact (wf_edges _ W).
  - intros e He. destruct (wf_ends _ W e He) as [S D].
    unfold ids, add_node in *. simpl. rewrite map_app.
    split; apply in_or_app; now left.
Qed.

Lemma wf_add_edge (i j : nat) (g : graph) :
  wf g -> In i (ids g) -> In j (ids g) -> has_edge i j g = false ->
  wf (add_edge (mkEdge i j) g).
Proof.
  intros W Hi Hj E. split.
  - exact (wf_ids _ W).
  - exact (wf_names _ W).
  - intros a b. rewrite count_edges_add_edge.
    destruct (edge_eqb _ _) eqn:Q.
    + apply edge_eqb_eq in Q. injection Q as -> ->.
      now rewrite (has_edge_false _ _ _ E).
    + pose proof (wf_edges _ W a b). lia.
  - intros e He. unfold add_edge in He. simpl in He.
    apply in_app_or in He as [He | [<- | []]]; [exact (wf_ends _ W e He) | now simpl].
Qed.

Lemma is_named_mkNode (l l' : label) (v v' : json) (i : nat) :
  is_named l' v' (mkNode i l v) = true <-> l = l' /\ v = v'.
Proof.
  unfold is_named. simpl. now rewrite andb_true_iff, label_eqb_eq, json_eqb_eq.
Qed.

Lemma match_nodes_same_nodes (l : label) (v : json) (g g' : graph) :
  nodes g' = nodes g -> match_nodes l v g' = match_nodes l v g.
Proof. unfold match_nodes. now intros ->. Qed.

(** On a well-formed graph [MERGE] of a node binds exactly one node. *)
Lemma merge_node_spec (l : label) (v : json) (g : graph) :
  wf g ->
  exists g' i,
    merge_node l v g = (g', [i]) /\ wf g' /\
    match_nodes l v g' = [i] /\
    edges g' = edges g /\
    (forall l' v' k, match_nodes l' v' g = [k] -> match_nodes l' v' g' = [k]) /\
    (forall l' v', l' <> l \/ v' <> v ->
                   match_nodes l' v' g' = match_nodes l' v' g) /\
    incl (ids g) (ids g') /\
    List.length (nodes g') <= S (List.length (nodes g)).
Proof.
  intros W. unfold merge_node.
  destruct (match_nodes l v g) as [| k [| k' r]] eqn:E.
  - exists (add_node (mkNode (fresh_id g) l v) g), (fresh_id g).
    assert (N : is_named l v (mkNode (fresh_id g) l v) = true)
      by now apply is_named_mkNode.
    repeat apply conj.
    + reflexivity.
    + now apply wf_add_node.
    + now rewrite match_nodes_add_node, E, N.
    + reflexivity.
    + intros l' v' k Hk. rewrite match_nodes_add_node, Hk.
      destruct (is_named l' v' _) eqn:N'; [|reflexivity].
      apply is_named_mkNode in N' as [-> ->]. congruence.
    + intros l' v' D. rewrite match_nodes_add_node.
      destruct (is_named l' v' _) eqn:N'; [|apply app_nil_r].
      apply is_named_mkNode in N' as [-> ->]. destruct D; congruence.
    + unfold ids, add_node. simpl. rewrite map_app. now apply incl_appl, incl_refl.
    + unfold add_node. simpl. rewrite length_app. simpl. lia.
  - exists g, k. repeat apply conj; auto using incl_refl.
  - pose proof (wf_names _ W l v) as H. unfold count_nodes in H.
    rewrite E in H. simpl in H. lia.
Qed.

Lemma merge_edge_spec (i j : nat) (g : graph) :
  wf g -> In i (ids g) -> In j (ids g) ->
  wf (merge_edge i j g) /\
  nodes (merge_edge i j g) = nodes g /\
  count_edges i j (merge_edge i j g) = 1 /\
  (forall a b, a <> i \/ b <> j ->
               count_edges a b (merge_edge i j g) = count_edges a b g) /\
  List.length (edges (merge_edge i j g)) <= S (List.length (edges g)).
Proof.
  intros W Hi Hj. unfold merge_edge. destruct (has_edge i j g) eqn:E.
  - repeat apply conj; auto.
    pose proof (has_edge_true _ _ _ E). pose proof (wf_edges _ W i j). lia.
  - repeat apply conj.
    + now apply wf_add_edge.
    + reflexivity.
    + rewrite count_edges_add_edge, (has_edge_false _ _ _ E).
      now rewrite (proj2 (edge_eqb_eq _ _) eq_refl).
    + intros a b D. rewrite count_edges_add_edge.
      destruct (edge_eqb _ _) eqn:Q; [|lia].
      apply edge_eqb_eq in Q. injection Q as -> ->. destruct D; congruence.
    + unfold add_edge. simpl. rewrite length_app. simpl. lia.
Qed.

(** What one committed run of the query does to a well-formed graph. *)
Lemma upsert_spec (u c : json) (g : graph) :
  wf g ->
  exists i j,
    wf (upsert u c g) /\
    match_nodes User u (upsert u c g) = [i] /\
    match_nodes Category c (upsert u c g) = [j] /\
    (forall l v k, match_nodes l v g = [k] ->
                   match_nodes l v (upsert u c g) = [k]) /\
    (forall l v, l <> User \/ v <> u -> l <> Category \/ v <> c ->
                 match_nodes l v (upsert u c g) = match_nodes l v g) /\
    count_edges i j (upsert u c g) = 1 /\
    (forall a b, a <> i \/ b <> j ->
                 count_edges a b (upsert u c g) = count_edges a b g) /\
    List.length (nodes (upsert u c g)) <= 2 + List.length (nodes g) /\
    List.length (edges (upsert u c g)) <= 1 + List.length (edges g).
Proof.
  intros W. unfold upsert.
  destruct (merge_node_spec User u g W)
    as (g1 & i & E1 & W1 & M1 & Ed1 & K1 & O1 & I1 & L1).
  destruct (merge_node_spec Category c g1 W1)
    as (g2 & j & E2 & W2 & M2 & Ed2 & K2 & O2 & I2 & L2).
  rewrite E1. simpl. rewrite E2. simpl.
  assert (Hi : In i (ids g2)).
  { apply I2. apply (match_nodes_in_ids User u). rewrite M1. now left. }
  assert (Hj : In j (ids g2)).
  { apply (match_nodes_in_ids Category c). rewrite M2. now left. }
  destruct (merge_edge_spec i j g2 W2 Hi Hj) as (W3 & N3 & C3 & O3 & L3).
  exists i, j. repeat apply conj.
  - exact W3.
  - rewrite (match_nodes_same_nodes _ _ _ _ N3). auto.
  - now rewrite (match_nodes_same_nodes _ _ _ _ N3).
  - intros l v k Hk. rewrite (match_nodes_same_nodes _ _ _ _ N3). auto.
  - intros l v D1 D2. rewrite (match_nodes_same_nodes _ _ _ _ N3).
    now rewrite O2, O1.
  - exact C3.
  - intros a b D. rewrite (O3 a b D). unfold count_edges. now rewrite Ed2, Ed1.
  - rewrite N3. lia.
  - rewrite Ed2, Ed1 in L3. lia.
Qed.

(** Once both nodes and the relationship are there, the query changes
    nothing. *)
Lemma upsert_fixed (u c : json) (g : graph) (i j : nat) :
  match_nodes User u g = [i] -> match_nodes Category c g = [j] ->
  1 <= count_edges i j g -> upsert u c g = g.
Proof.
  intros Hu Hc He. unfold upsert, merge_node. rewrite Hu. simpl.
  unfold merge_node. rewrite Hc. simpl. unfold merge_edge.
  destruct (has_edge i j g) eqn:E; [reflexivity|].
  apply has_edge_false in E. lia.
Qed.

Lemma upsert_twice (u c : json) (g : graph) :
  wf g -> upsert u c (upsert u c g) = upsert u c g.
Proof.
  intros W. destruct (upsert_spec u c g W) as (i & j & _ & Hu & Hc & _ & _ & He & _).
  apply (upsert_fixed _ _ _ _ _ Hu Hc). lia.
Qed.

Lemma upsert_wf (u c : json) (g : graph) : wf g -> wf (upsert u c g).
Proof. intros W. now destruct (upsert_spec u c g W) as (i & j & W' & _). Qed.

(** ** One managed transaction *)

Lemma run_attempt_spec (a : attempt) (u c : json) (s : store) :
  exists s',
    run_attempt a (fun t => update_graph t u c) s
    = (attempt_result a, s', attempt_events a u c)
    /\ committed s' = attempt_graph a u c (committed s).
Proof.
  destruct a as [[e | e | e] |]; eexists; split; reflexivity.
Qed.

Lemma run_transaction_spec (fs : list failure) (a : attempt) (u c : json)
      (s : store) :
  exists s',
    run_transaction fs a (fun t => update_graph t u c) s
    = (attempt_result a, s',
       flat_map (fun f => attempt_events (Fails f) u c) fs
       ++ attempt_events a u c)
    /\ committed s' = attempt_graph a u c (committed s).
Proof.
  revert s. induction fs as [| f fs IH]; intros s; simpl.
  - apply run_attempt_spec.
  - destruct (run_attempt_spec (Fails f) u c s) as (s1 & E1 & G1).
    destruct (IH s1) as (s2 & E2 & G2).
    exists s2. unfold try_except. rewrite E1. simpl. rewrite E2.
    split.
    + now rewrite app_assoc.
    + now rewrite G2, G1.
Qed.

Lemma write_transaction_spec (o : write_oracle) (u c : json) (s : store) :
  exists s',
    write_transaction o update_graph u c s
    = (attempt_result (final o), s', WriteTransaction :: transaction_events o u c)
    /\ committed s' = attempt_graph (final o) u c (committed s).
Proof.
  destruct (run_transaction_spec (retried o) (final o) u c s) as (s' & E & G).
  exists s'. split; [|exact G].
  unfold write_transaction, bind, emit, transaction_events. rewrite E.
  now destruct (final o).
Qed.

(** ** One iteration *)

Lemma iteration_write (data : json) (o : write_oracle) (s : store) (u c : json) :
  subscript data "user" = Ok u -> subscript data "category" = Ok c ->
  exists s',
    iteration data o s
    = (Ok tt, s',
       Print (LineReceived data) :: SessionOpen :: WriteTransaction
       :: transaction_events o u c ++ SessionClose :: error_line (final o))
    /\ committed s' = attempt_graph (final o) u c (committed s).
Proof.
  intros Hu Hc.
  destruct (write_transaction_spec o u c s) as (s' & E & G).
  exists s'. split; [|exact G].
  unfold iteration, with_session, print, emit, bind, try_except, lift, ret, raise.
  rewrite Hu, Hc, E. unfold transaction_events.
  destruct (final o) as [f |]; simpl; rewrite ?app_nil_r;
    now rewrite <- ?app_assoc.
Qed.

Lemma iteration_skip (data : json) (o : write_oracle) (s : store) (e : exn) :
  subscript data "user" = Raise e \/
  (exists u, subscript data "user" = Ok u /\ subscript data "category" = Raise e) ->
  iteration data o s
  = (Ok tt, s,
     [Print (LineReceived data); SessionOpen; SessionClose;
      Print (LineNeo4jError e)]).
Proof.
  unfold iteration, with_session, print, emit, bind, try_except, lift, ret, raise.
  intros [Hu | (u & Hu & Hc)].
  - now rewrite Hu.
  - now rewrite Hu, Hc.
Qed.

(** The body of the loop never lets an exception out. *)
Lemma iteration_total (data : json) (o : write_oracle) (s : store) :
  exists s' t,
    iteration data o s = (Ok tt, s', t)
    /\ committed s' = step_graph data o (committed s).
Proof.
  unfold step_graph.
  destruct (subscript data "user") as [u | e] eqn:Hu.
  - destruct (subscript data "category") as [c | e] eqn:Hc.
    + destruct (iteration_write data o s u c Hu Hc) as (s' & E & G). eauto.
    + exists s. eexists. split; [|reflexivity].
      apply (iteration_skip data o s e). right. eauto.
  - exists s. eexists. split; [|reflexivity].
    apply (iteration_skip data o s e). now left.
Qed.

(** What an iteration does depends on the store only through the committed
    graph. *)
Lemma iteration_committed_only (data : json) (o : write_oracle) (s1 s2 : store) :
  committed s1 = committed s2 ->
  snd (iteration data o s1) = snd (iteration data o s2) /\
  fst (fst (iteration data o s1)) = fst (fst (iteration data o s2)) /\
  committed (snd (fst (iteration data o s1)))
  = committed (snd (fst (iteration data o s2))).
Proof.
  intros E.
  destruct (subscript data "user") as [u | e] eqn:Hu.
  - destruct (subscript data "category") as [c | e] eqn:Hc.
    + destruct (iteration_write data o s1 u c Hu Hc) as (s1' & E1 & G1).
      destruct (iteration_write data o s2 u c Hu Hc) as (s2' & E2 & G2).
      rewrite E1, E2. simpl. rewrite G1, G2, E. auto.
    + rewrite !(iteration_skip data o _ e) by (right; eauto). simpl. auto.
  - rewrite !(iteration_skip data o _ e) by now left. simpl. auto.
Qed.

(** ** Two and more committed runs of the query *)

(** Different names: the two runs touch different nodes and relationships. *)
Lemma upsert_isolated (g : graph) (u1 c1 u2 c2 : json) :
  wf g -> u1 <> u2 -> c1 <> c2 ->
  exists i1 j1 i2 j2,
    match_nodes User u1 (upsert u2 c2 (upsert u1 c1 g)) = [i1] /\
    match_nodes Category c1 (upsert u2 c2 (upsert u1 c1 g)) = [j1] /\
    match_nodes User u2 (upsert u2 c2 (upsert u1 c1 g)) = [i2] /\
    match_nodes Category c2 (upsert u2 c2 (upsert u1 c1 g)) = [j2] /\
    i1 <> i2 /\ j1 <> j2 /\
    count_edges i1 j1 (upsert u2 c2 (upsert u1 c1 g)) = 1 /\
    count_edges i2 j2 (upsert u2 c2 (upsert u1 c1 g)) = 1 /\
    count_edges i1 j2 (upsert u2 c2 (upsert u1 c1 g)) = count_edges i1 j2 g /\
    count_edges i2 j1 (upsert u2 c2 (upsert u1 c1 g)) = count_edges i2 j1 g.
Proof.
  intros W Du Dc.
  destruct (upsert_spec u1 c1 g W)
    as (i1 & j1 & W1 & U1 & C1 & _ & _ & E1 & O1 & _).
  destruct (upsert_spec u2 c2 _ W1)
    as (i2 & j2 & W2 & U2 & C2 & K2 & _ & E2 & O2 & _).
  exists i1, j1, i2, j2.
  pose proof (K2 _ _ _ U1) as U1'. pose proof (K2 _ _ _ C1) as C1'.
  assert (Di : i1 <> i2).
  { apply (match_nodes_apart _ User User u1 u2 i1 i2 W2); auto.
    - rewrite U1'. now left.
    - rewrite U2. now left. }
  assert (Dj : j1 <> j2).
  { apply (match_nodes_apart _ Category Category c1 c2 j1 j2 W2); auto.
    - rewrite C1'. now left.
    - rewrite C2. now left. }
  repeat apply conj; auto.
  - rewrite O2 by auto. exact E1.
  - rewrite O2 by auto. apply O1. auto.
  - rewrite O2 by auto. apply O1. auto.
Qed.

(** One user, two categories: the second run keeps what the first made. *)
Lemma upsert_additive (g : graph) (u c1 c2 : json) :
  wf g -> c1 <> c2 ->
  exists i j1 j2,
    match_nodes User u (upsert u c2 (upsert u c1 g)) = [i] /\
    match_nodes Category c1 (upsert u c2 (upsert u c1 g)) = [j1] /\
    match_nodes Category c2 (upsert u c2 (upsert u c1 g)) = [j2] /\
    j1 <> j2 /\
    count_edges i j1 (upsert u c2 (upsert u c1 g)) = 1 /\
    count_edges i j2 (upsert u c2 (upsert u c1 g)) = 1.
Proof.
  intros W Dc.
  destruct (upsert_spec u c1 g W)
    as (i & j1 & W1 & U1 & C1 & _ & _ & E1 & _).
  destruct (upsert_spec u c2 _ W1)
    as (i' & j2 & W2 & U2 & C2 & K2 & _ & E2 & O2 & _).
  pose proof (K2 _ _ _ U1) as U1'. pose proof (K2 _ _ _ C1) as C1'.
  assert (i' = i) by congruence. subst i'.
  assert (Dj : j1 <> j2).
  { apply (match_nodes_apart _ Category Category c1 c2 j1 j2 W2); auto.
    - rewrite C1'. now left.
    - rewrite C2. now left. }
  exists i, j1, j2. repeat apply conj; auto.
  rewrite O2 by auto. exact E1.
Qed.

Lemma upsert_two_on_empty (u1 c1 u2 c2 : string) :
  u1 <> u2 -> c1 <> c2 ->
  upsert (JStr u2) (JStr c2) (upsert (JStr u1) (JStr c1) empty_graph)
  = mkGraph [mkNode 1 User (JStr u1); mkNode 2 Category (JStr c1);
             mkNode 3 User (JStr u2); mkNode 4 Category (JStr c2)]
            [mkEdge 1 2; mkEdge 3 4].
Proof.
  intros Du Dc.
  apply String.eqb_neq in Du, Dc.
  unfold upsert, merge_node, match_nodes, is_named. simpl.
  rewrite Du. simpl.
  unfold merge_node, match_nodes, is_named. simpl.
  rewrite Dc. reflexivity.
Qed.

(** ** The trace of a transaction *)

Lemma attempt_events_tx (a : attempt) (u c : json) :
  Forall (fun ev => is_tx_event ev = true) (attempt_events a u c).
Proof. destruct a as [[e | e | e] |]; simpl; repeat constructor. Qed.

Lemma transaction_events_tx (o : write_oracle) (u c : json) :
  Forall (fun ev => is_tx_event ev = true) (transaction_events o u c).
Proof.
  unfold transaction_events. apply Forall_app. split.
  - induction (retried o) as [| f fs IH]; [constructor|].
    change (flat_map (fun f => attempt_events (Fails f) u c) (f :: fs))
      with (attempt_events (Fails f) u c
            ++ flat_map (fun f => attempt_events (Fails f) u c) fs).
    apply Forall_app. split; [apply attempt_events_tx | exact IH].
  - apply attempt_events_tx.
Qed.

Lemma attempt_events_run (a : attempt) (u c : json) (q : string) (x y : json) :
  In (TxRun q x y) (attempt_events a u c) -> q = query /\ x = u /\ y = c.
Proof.
  destruct a as [[e | e | e] |]; simpl; intros H;
    repeat (destruct H as [H | H]; try discriminate H; try contradiction);
    injection H as <- <- <-; auto.
Qed.

Lemma transaction_events_run (o : write_oracle) (u c : json) (q : string)
      (x y : json) :
  In (TxRun q x y) (transaction_events o u c) -> q = query /\ x = u /\ y = c.
Proof.
  unfold transaction_events. intros H. apply in_app_or in H as [H | H].
  - apply in_flat_map in H as (f & _ & H). now apply attempt_events_run in H.
  - now apply attempt_events_run in H.
Qed.

Lemma tx_event_not_write_transaction (t : list event) :
  Forall (fun ev => is_tx_event ev = true) t ->
  filter is_write_transaction t = [].
Proof.
  induction 1 as [| ev t H _ IH]; simpl; [reflexivity|].
  destruct ev; simpl in *; try discriminate; exact IH.
Qed.

(** ** The loop *)

Lemma final_store_after (t : list event) (o : outcome) :
  final_store (after t o) = final_store o.
Proof. now destruct o. Qed.

Lemma events_after (t : list event) (o : outcome) :
  events (after t o) = t ++ events o.
Proof. now destruct o. Qed.

Lemma crashed_after (t : list event) (o : outcome) :
  crashed (after t o) = crashed o.
Proof. now destruct o. Qed.

Section LoopFacts.

Variable decode_utf8 : list byte -> result string.
Variable json_loads : string -> result json.

Local Abbreviation deserialize := (value_deserializer decode_utf8 json_loads).
Local Abbreviation loop := (consume decode_utf8 json_loads).

Lemma consume_raise (x : list byte) (o : write_oracle) (rest : list message)
      (s : store) (e : exn) :
  deserialize x = Raise e -> loop ((x, o) :: rest) s = Crashed e s [].
Proof. intros H. simpl. now rewrite H. Qed.

Lemma consume_decoded (x : list byte) (o : write_oracle)
      (rest : list message) (s : store) (data : json) :
  deserialize x = Ok data ->
  exists s1 t1,
    iteration data o s = (Ok tt, s1, t1) /\
    committed s1 = step_graph data o (committed s) /\
    loop ((x, o) :: rest) s = after t1 (loop rest s1).
Proof.
  intros H. destruct (iteration_total data o s) as (s1 & t1 & E & G).
  exists s1, t1. repeat apply conj; auto.
  simpl. now rewrite H, E.
Qed.

(** The loop reads the store only through the committed graph. *)
Lemma consume_committed_only (ms : list message) (s1 s2 : store) :
  committed s1 = committed s2 ->
  committed (final_store (loop ms s1)) = committed (final_store (loop ms s2))
  /\ events (loop ms s1) = events (loop ms s2)
  /\ crashed (loop ms s1) = crashed (loop ms s2).
Proof.
  revert s1 s2. induction ms as [| [x o] rest IH]; intros s1 s2 E.
  - simpl. auto.
  - destruct (deserialize x) as [data | e] eqn:D.
    + destruct (consume_decoded x o rest s1 data D) as (a1 & t1 & I1 & G1 & L1).
      destruct (consume_decoded x o rest s2 data D) as (a2 & t2 & I2 & G2 & L2).
      destruct (iteration_committed_only data o s1 s2 E) as (T & _ & _).
      rewrite I1, I2 in T. simpl in T. subst t2.
      assert (Ea : committed a1 = committed a2) by (rewrite G1, G2; now rewrite E).
      destruct (IH a1 a2 Ea) as (Hg & He & Hc).
      rewrite L1, L2, !final_store_after, !events_after, !crashed_after.
      repeat apply conj; congruence.
    + rewrite !(consume_raise x o rest _ e D). simpl. auto.
Qed.


(** A message that decodes to an event with both keys and whose write
    commits. *)
Lemma consume_commit (x : list byte) (o : write_oracle) (rest : list message)
      (s : store) (data u c : json) :
  deserialize x = Ok data ->
  subscript data "user" = Ok u -> subscript data "category" = Ok c ->
  final o = Commits ->
  exists s1 t1,
    committed s1 = upsert u c (committed s) /\
    loop ((x, o) :: rest) s = after t1 (loop rest s1).
Proof.
  intros D Hu Hc F.
  destruct (consume_decoded x o rest s data D) as (s1 & t1 & _ & G & L).
  exists s1, t1. split; [|exact L].
  rewrite G. unfold step_graph. now rewrite Hu, Hc, F.
Qed.

End LoopFacts.

Lemma upsert_two_on_empty_ids (u1 c1 u2 c2 : string) :
  u1 <> u2 -> c1 <> c2 ->
  match_nodes User (JStr u1)
    (upsert (JStr u2) (JStr c2) (upsert (JStr u1) (JStr c1) empty_graph)) = [1] /\
  match_nodes Category (JStr c1)
    (upsert (JStr u2) (JStr c2) (upsert (JStr u1) (JStr c1) empty_graph)) = [2] /\
  match_nodes User (JStr u2)
    (upsert (JStr u2) (JStr c2) (upsert (JStr u1) (JStr c1) empty_graph)) = [3] /\
  match_nodes Category (JStr c2)
    (upsert (JStr u2) (JStr c2) (upsert (JStr u1) (JStr c1) empty_graph)) = [4].
Proof.
  intros Du Dc. rewrite (upsert_two_on_empty u1 c1 u2 c2 Du Dc).
  apply String.eqb_neq in Du, Dc.
  unfold match_nodes, is_named. simpl.
  rewrite !String.eqb_refl, (String.eqb_sym u2 u1), (String.eqb_sym c2 c1), Du, Dc.
  simpl. auto.
Qed.

(** * The claims *)

(** ** Graph contents after committed deliveries *)

Lemma consume_repeat
      (decode_utf8 : list byte -> result string)
      (json_loads : string -> result json)
      (x : list byte) (data u c : json) (os : list write_oracle) (s : store) :
  value_deserializer decode_utf8 json_loads x = Ok data ->
  subscript data "user" = Ok u -> subscript data "category" = Ok c ->
  Forall (fun o => final o = Commits) os ->
  wf (committed s) ->
  crashed (consume decode_utf8 json_loads (map (pair x) os) s) = false /\
  committed (final_store (consume decode_utf8 json_loads (map (pair x) os) s))
  = match os with
    | [] => committed s
    | _ :: _ => upsert u c (committed s)
    end.
Proof.
  intros D Hu Hc F. revert s. induction F as [| o os Fo _ IH]; intros s W.
  - simpl. auto.
  - change (map (pair x) (o :: os)) with ((x, o) :: map (pair x) os).
    destruct (consume_commit decode_utf8 json_loads x o (map (pair x) os) s
                data u c D Hu Hc Fo) as (s1 & t1 & G & L).
    rewrite L, crashed_after, final_store_after.
    assert (W1 : wf (committed s1)) by (rewrite G; now apply upsert_wf).
    destruct (IH s1 W1) as [C E]. split; [exact C|].
    rewrite E. destruct os; [exact G|].
    rewrite G. now apply upsert_twice.
Qed.

(** C1 - Idempotence of the upsert.  A payload that decodes to an event of
    user [u] in category [c], delivered N >= 1 times with every write
    committed, leaves the graph as one delivery leaves it: exactly one User
    node named [u], exactly one Category node named [c] and exactly one
    POSTED_IN relationship from the one to the other, the graph still
    without duplicates. *)
Theorem upsert_idempotent_delivery
        (decode_utf8 : list byte -> result string)
        (json_loads : string -> result json)
        (x : list byte) (data : json) (u c : string)
        (os : list write_oracle) (s : store) :
  value_deserializer decode_utf8 json_loads x = Ok data ->
  subscript data "user" = Ok (JStr u) ->
  subscript data "category" = Ok (JStr c) ->
  1 <= List.length os ->
  Forall (fun o => final o = Commits) os ->
  wf (committed s) ->
  crashed (consume decode_utf8 json_loads (map (pair x) os) s) = false /\
  wf (committed (final_store (consume decode_utf8 json_loads (map (pair x) os) s))) /\
  committed (final_store (consume decode_utf8 json_loads (map (pair x) os) s))
  = upsert (JStr u) (JStr c) (committed s) /\
  exists i j,
    match_nodes User (JStr u)
      (committed (final_store (consume decode_utf8 json_loads (map (pair x) os) s)))
    = [i] /\
    match_nodes Category (JStr c)
      (committed (final_store (consume decode_utf8 json_loads (map (pair x) os) s)))
    = [j] /\
    count_edges i j
      (committed (final_store (consume decode_utf8 json_loads (map (pair x) os) s)))
    = 1.
Proof.
  intros D Hu Hc N F W.
  destruct (consume_repeat decode_utf8 json_loads x data (JStr u) (JStr c) os s
              D Hu Hc F W) as [C E].
  destruct os as [| o os]; [simpl in N; lia|].
  rewrite E.
  destruct (upsert_spec (JStr u) (JStr c) (committed s) W)
    as (i & j & W' & U & K & _ & _ & Ed & _).
  repeat apply conj; auto.
  exists i, j. auto.
Qed.

(** C5 - Isolation of distinct events.  An event for (u1, c1) and one for
    (u2, c2), with u1 <> u2 and c1 <> c2 and both writes committed, give two
    User nodes and two Category nodes with different ids, one relationship
    u1 -> c1 and one u2 -> c2, and add no relationship u1 -> c2 or u2 -> c1;
    on the empty graph the result has exactly those four nodes and those two
    relationships. *)
Theorem distinct_events_isolated
        (decode_utf8 : list byte -> result string)
        (json_loads : string -> result json)
        (x1 x2 : list byte) (d1 d2 : json) (u1 c1 u2 c2 : string)
        (o1 o2 : write_oracle) (s : store) :
  value_deserializer decode_utf8 json_loads x1 = Ok d1 ->
  subscript d1 "user" = Ok (JStr u1) ->
  subscript d1 "category" = Ok (JStr c1) ->
  value_deserializer decode_utf8 json_loads x2 = Ok d2 ->
  subscript d2 "user" = Ok (JStr u2) ->
  subscript d2 "category" = Ok (JStr c2) ->
  final o1 = Commits -> final o2 = Commits ->
  u1 <> u2 -> c1 <> c2 ->
  wf (committed s) ->
  exists g' i1 j1 i2 j2,
    g' = committed (final_store
                      (consume decode_utf8 json_loads [(x1, o1); (x2, o2)] s)) /\
    match_nodes User (JStr u1) g' = [i1] /\
    match_nodes Category (JStr c1) g' = [j1] /\
    match_nodes User (JStr u2) g' = [i2] /\
    match_nodes Category (JStr c2) g' = [j2] /\
    i1 <> i2 /\ j1 <> j2 /\
    count_edges i1 j1 g' = 1 /\
    count_edges i2 j2 g' = 1 /\
    count_edges i1 j2 g' = count_edges i1 j2 (committed s) /\
    count_edges i2 j1 g' = count_edges i2 j1 (committed s) /\
    (committed s = empty_graph ->
     List.length (nodes g') = 4 /\ edges g' = [mkEdge i1 j1; mkEdge i2 j2]).
Proof.
  intros D1 U1 C1 D2 U2 C2 F1 F2 Du Dc W.
  destruct (consume_commit decode_utf8 json_loads x1 o1 [(x2, o2)] s
              d1 _ _ D1 U1 C1 F1) as (s1 & t1 & G1 & L1).
  destruct (consume_commit decode_utf8 json_loads x2 o2 [] s1
              d2 _ _ D2 U2 C2 F2) as (s2 & t2 & G2 & L2).
  assert (E : committed (final_store
                (consume decode_utf8 json_loads [(x1, o1); (x2, o2)] s))
              = upsert (JStr u2) (JStr c2)
                  (upsert (JStr u1) (JStr c1) (committed s))).
  { rewrite L1, final_store_after, L2, final_store_after. simpl.
    now rewrite G2, G1. }
  assert (Ju : JStr u1 <> JStr u2) by congruence.
  assert (Jc : JStr c1 <> JStr c2) by congruence.
  destruct (upsert_isolated (committed s) _ _ _ _ W Ju Jc)
    as (i1 & j1 & i2 & j2 & M1 & N1 & M2 & N2 & Di & Dj & E1 & E2 & X1 & X2).
  exists (upsert (JStr u2) (JStr c2) (upsert (JStr u1) (JStr c1) (committed s))),
    i1, j1, i2, j2.
  repeat apply conj; auto.
  - intros Z. rewrite Z in M1, N1, M2, N2 |- *.
    destruct (upsert_two_on_empty_ids u1 c1 u2 c2 Du Dc) as (A1 & B1 & A2 & B2).
    assert (i1 = 1) by congruence. assert (j1 = 2) by congruence.
    assert (i2 = 3) by congruence. assert (j2 = 4) by congruence.
    subst. now rewrite (upsert_two_on_empty u1 c1 u2 c2 Du Dc).
Qed.

(** C6 - Ordering and additivity for one user.  After (u, c1) and then
    (u, c2), with c1 <> c2 and both writes committed, the graph has one User
    node [u], one Category node for each of [c1] and [c2], and one
    relationship from [u] to each: the second write neither removes the
    first nor is lost. *)
Theorem same_user_two_categories
        (decode_utf8 : list byte -> result string)
        (json_loads : string -> result json)
        (x1 x2 : list byte) (d1 d2 : json) (u c1 c2 : string)
        (o1 o2 : write_oracle) (s : store) :
  value_deserializer decode_utf8 json_loads x1 = Ok d1 ->
  subscript d1 "user" = Ok (JStr u) ->
  subscript d1 "category" = Ok (JStr c1) ->
  value_deserializer decode_utf8 json_loads x2 = Ok d2 ->
  subscript d2 "user" = Ok (JStr u) ->
  subscript d2 "category" = Ok (JStr c2) ->
  final o1 = Commits -> final o2 = Commits ->
  c1 <> c2 ->
  wf (committed s) ->
  exists g' i j1 j2,
    g' = committed (final_store
                      (consume decode_utf8 json_loads [(x1, o1); (x2, o2)] s)) /\
    crashed (consume decode_utf8 json_loads [(x1, o1); (x2, o2)] s) = false /\
    match_nodes User (JStr u) g' = [i] /\
    match_nodes Category (JStr c1) g' = [j1] /\
    match_nodes Category (JStr c2) g' = [j2] /\
    j1 <> j2 /\
    count_edges i j1 g' = 1 /\
    count_edges i j2 g' = 1.
Proof.
  intros D1 U1 C1 D2 U2 C2 F1 F2 Dc W.
  destruct (consume_commit decode_utf8 json_loads x1 o1 [(x2, o2)] s
              d1 _ _ D1 U1 C1 F1) as (s1 & t1 & G1 & L1).
  destruct (consume_commit decode_utf8 json_loads x2 o2 [] s1
              d2 _ _ D2 U2 C2 F2) as (s2 & t2 & G2 & L2).
  assert (Jc : JStr c1 <> JStr c2) by congruence.
  destruct (upsert_additive (committed s) (JStr u) _ _ W Jc)
    as (i & j1 & j2 & M & N1 & N2 & Dj & E1 & E2).
  exists (upsert (JStr u) (JStr c2) (upsert (JStr u) (JStr c1) (committed s))),
    i, j1, j2.
  repeat apply conj; auto.
  - rewrite L1, final_store_after, L2, final_store_after. simpl.
    now rewrite G2, G1.
  - now rewrite L1, crashed_after, L2, crashed_after.
Qed.

(** ** Concrete runs *)

Example loads_alice_electronics :
  value_deserializer PyLib.decode PyLib.loads alice_electronics
  = Ok (JObj [("user", JStr "alice"); ("category", JStr "electronics")]).
Proof. reflexivity. Qed.

Example loads_truncated :
  value_deserializer PyLib.decode PyLib.loads truncated = Raise JSONDecodeError.
Proof. reflexivity. Qed.

Example loads_not_utf8 :
  value_deserializer PyLib.decode PyLib.loads [x7b; xff; x7d]
  = Raise UnicodeDecodeError.
Proof. reflexivity. Qed.

Example run_alice_twice :
  committed (final_store
               (run [(alice_electronics, reachable); (alice_electronics, reachable)]
                    empty_store))
  = mkGraph [mkNode 1 User (JStr "alice"); mkNode 2 Category (JStr "electronics")]
            [mkEdge 1 2].
Proof. reflexivity. Qed.

(** ** Errors *)

(** C2 (as amended) - A payload the deserializer rejects, by malformed
    UTF-8 or malformed JSON, raises where the consumer yields the message,
    outside the [try] of the loop body: nothing is written to the graph for
    it, nothing is printed, it is not tried again, and the loop ends with
    the exception, so no later message is processed. *)
Theorem decode_failure_ends_loop
        (decode_utf8 : list byte -> result string)
        (json_loads : string -> result json)
        (x : list byte) (o : write_oracle) (rest : list message) (s : store)
        (e : exn) :
  value_deserializer decode_utf8 json_loads x = Raise e ->
  consume decode_utf8 json_loads ((x, o) :: rest) s = Crashed e s [].
Proof. apply consume_raise. Qed.

(** C3 - Atomic skip of an event missing a required key.  For an event
    whose object lacks [user] or [category], the session is opened and
    closed with no transaction in between, the [KeyError] is printed, the
    store is left as it was, and the loop goes on with the next message. *)
Theorem missing_key_skipped
        (decode_utf8 : list byte -> result string)
        (json_loads : string -> result json)
        (x : list byte) (o : write_oracle) (rest : list message) (s : store)
        (d : list (string * json)) :
  value_deserializer decode_utf8 json_loads x = Ok (JObj d) ->
  dict_get "user" d = None \/ dict_get "category" d = None ->
  exists k,
    (k = "user" \/ k = "category") /\
    consume decode_utf8 json_loads ((x, o) :: rest) s
    = after [Print (LineReceived (JObj d)); SessionOpen; SessionClose;
             Print (LineNeo4jError (KeyError k))]
            (consume decode_utf8 json_loads rest s).
Proof.
  intros D H.
  assert (K : exists k, (k = "user" \/ k = "category") /\
                        (subscript (JObj d) "user" = Raise (KeyError k) \/
                         exists u, subscript (JObj d) "user" = Ok u /\
                                   subscript (JObj d) "category" = Raise (KeyError k))).
  { simpl. destruct (dict_get "user" d) as [u |] eqn:Hu.
    - destruct H as [H | H]; [discriminate|]. rewrite H.
      exists "category". split; [now right|]. right. eauto.
    - exists "user". split; [now left|]. now left. }
  destruct K as (k & Hk & S). exists k. split; [exact Hk|].
  simpl consume. rewrite D. now rewrite (iteration_skip (JObj d) o s (KeyError k) S).
Qed.

(** C4 - Write-failure isolation.  When the write made for a message
    raises, the error is caught in the loop and printed, one call of
    [write_transaction] was made for the message and no other, the
    committed graph is unchanged, and the messages after it are processed
    exactly as if the failed one had never been delivered. *)
Theorem write_failure_isolated
        (decode_utf8 : list byte -> result string)
        (json_loads : string -> result json)
        (x : list byte) (o : write_oracle) (rest : list message) (s : store)
        (data u c : json) (f : failure) :
  value_deserializer decode_utf8 json_loads x = Ok data ->
  subscript data "user" = Ok u ->
  subscript data "category" = Ok c ->
  final o = Fails f ->
  exists t,
    t = Print (LineReceived data) :: SessionOpen :: WriteTransaction
        :: transaction_events o u c
        ++ [SessionClose; Print (LineNeo4jError (failure_exn f))] /\
    filter is_write_transaction t = [WriteTransaction] /\
    events (consume decode_utf8 json_loads ((x, o) :: rest) s)
    = t ++ events (consume decode_utf8 json_loads rest s) /\
    committed (final_store (consume decode_utf8 json_loads ((x, o) :: rest) s))
    = committed (final_store (consume decode_utf8 json_loads rest s)) /\
    crashed (consume decode_utf8 json_loads ((x, o) :: rest) s)
    = crashed (consume decode_utf8 json_loads rest s).
Proof.
  intros D Hu Hc F.
  destruct (iteration_write data o s u c Hu Hc) as (s1 & E & G).
  rewrite F in E, G. simpl in E, G.
  eexists. split; [reflexivity|]. split.
  - simpl. rewrite filter_app. simpl.
    now rewrite (tx_event_not_write_transaction _ (transaction_events_tx o u c)).
  - simpl consume. rewrite D, E.
    rewrite events_after, final_store_after, crashed_after.
    destruct (consume_committed_only decode_utf8 json_loads rest s1 s G)
      as (Hg & He & Hcr).
    now rewrite Hg, He, Hcr.
Qed.

(** ** What reaches the store *)

(** C7 - Noninterference of extra fields.  Two events that give the same
    results for [data['user']] and [data['category']] lead to the same
    result, the same store and the same events; only the line echoing the
    received event differs. *)
Theorem extra_fields_ignored (d1 d2 : json) (o : write_oracle) (s : store) :
  subscript d1 "user" = subscript d2 "user" ->
  subscript d1 "category" = subscript d2 "category" ->
  fst (iteration d1 o s) = fst (iteration d2 o s) /\
  exists t,
    snd (iteration d1 o s) = Print (LineReceived d1) :: t /\
    snd (iteration d2 o s) = Print (LineReceived d2) :: t.
Proof.
  intros Hu Hc.
  unfold iteration, with_session, print, emit, bind, try_except, lift, ret, raise.
  rewrite Hu, Hc.
  destruct (subscript d2 "user") as [u | e]; simpl; [|eauto].
  destruct (subscript d2 "category") as [c | e]; simpl; [|eauto].
  destruct (write_transaction o update_graph u c s) as [[[[] | e] s'] t];
    simpl; eauto.
Qed.

(** Whatever the event and whatever the store does, the iteration opens
    one session and closes it. *)
Lemma session_always_released (data : json) (o : write_oracle) (s : store) :
  exists s' mid tail,
    iteration data o s
    = (Ok tt, s',
       Print (LineReceived data) :: SessionOpen :: mid ++ SessionClose :: tail) /\
    Forall (fun ev => is_session_event ev = false) (mid ++ tail).
Proof.
  assert (T : forall t, Forall (fun ev => is_tx_event ev = true) t ->
                        Forall (fun ev => is_session_event ev = false) t).
  { intros t. apply Forall_impl. now intros []. }
  destruct (subscript data "user") as [u | e] eqn:Hu;
    [destruct (subscript data "category") as [c | e] eqn:Hc|].
  - destruct (iteration_write data o s u c Hu Hc) as (s' & E & _).
    exists s', (WriteTransaction :: transaction_events o u c), (error_line (final o)).
    split; [exact E|]. apply Forall_app. split.
    + constructor; [reflexivity|]. apply T, transaction_events_tx.
    + destruct (final o); repeat constructor.
  - exists s, [], [Print (LineNeo4jError e)]. split; [|repeat constructor].
    apply (iteration_skip data o s e). right. eauto.
  - exists s, [], [Print (LineNeo4jError e)]. split; [|repeat constructor].
    apply (iteration_skip data o s e). now left.
Qed.

(** C8 - Scoped session release.  For an event with both keys the
    iteration opens one session, makes one call of [write_transaction]
    whose events are all transaction events, and closes the session after
    them, whether the transaction commits (nothing follows) or raises (the
    error line follows). *)
Theorem session_scoped
        (data : json) (o : write_oracle) (s : store) (u c : json) :
  subscript data "user" = Ok u ->
  subscript data "category" = Ok c ->
  exists s' body tail,
    iteration data o s
    = (Ok tt, s',
       Print (LineReceived data) :: SessionOpen :: WriteTransaction
       :: body ++ SessionClose :: tail) /\
    Forall (fun ev => is_tx_event ev = true) body /\
    ((final o = Commits /\ tail = [] /\
      committed s' = upsert u c (committed s)) \/
     (exists f, final o = Fails f /\
                tail = [Print (LineNeo4jError (failure_exn f))] /\
                committed s' = committed s)).
Proof.
  intros Hu Hc.
  destruct (iteration_write data o s u c Hu Hc) as (s' & E & G).
  exists s', (transaction_events o u c), (error_line (final o)).
  split; [exact E|]. split; [apply transaction_events_tx|].
  destruct (final o) as [f |]; simpl in *.
  - right. exists f. auto.
  - left. auto.
Qed.

(** C9 - No type validation on the required keys.  Whatever JSON values
    sit under [user] and [category], the iteration calls
    [write_transaction] and begins a transaction; every [run] it issues
    carries the fixed query and those two values unchanged; and a [run] is
    issued unless the last attempt cannot begin. *)
Theorem no_type_validation
        (data : json) (o : write_oracle) (s : store) (v1 v2 : json) :
  subscript data "user" = Ok v1 ->
  subscript data "category" = Ok v2 ->
  In WriteTransaction (snd (iteration data o s)) /\
  In TxBegin (snd (iteration data o s)) /\
  (forall q a b, In (TxRun q a b) (snd (iteration data o s)) ->
                 q = query /\ a = v1 /\ b = v2) /\
  ((forall e, final o <> Fails (BeginFails e)) ->
   In (TxRun query v1 v2) (snd (iteration data o s))).
Proof.
  intros Hu Hc.
  destruct (iteration_write data o s v1 v2 Hu Hc) as (s' & E & G).
  rewrite E. simpl snd.
  assert (B : In TxBegin (attempt_events (final o) v1 v2))
    by (destruct (final o) as [[e | e | e] |]; simpl; auto).
  repeat apply conj.
  - simpl. auto.
  - right. right. right. apply in_or_app. left.
    unfold transaction_events. apply in_or_app. now right.
  - intros q a b H.
    destruct H as [H | [H | [H | H]]]; try discriminate H.
    apply in_app_or in H as [H | H].
    + now apply transaction_events_run in H.
    + destruct H as [H | H]; [discriminate H|].
      destruct (final o) as [f |]; simpl in H; [|contradiction].
      destruct H as [H | []]. discriminate H.
  - intros NB. right. right. right. apply in_or_app. left.
    unfold transaction_events. apply in_or_app. right.
    destruct (final o) as [[e | e | e] |]; simpl; auto.
    now destruct (NB e).
Qed.

(** C10 - The success line precedes the commit.  The transaction function
    never commits: it issues the query and, if that returns, prints
    "Graph Updated" at once.  So when the commit then fails, the trace
    shows the query, the success line, the commit and only then the error
    line, and the committed graph is unchanged. *)
Theorem success_line_precedes_commit
        (data : json) (o : write_oracle) (s : store) (u c : json) (e : exn) :
  subscript data "user" = Ok u ->
  subscript data "category" = Ok c ->
  final o = Fails (CommitFails e) ->
  (forall s0, update_graph None u c s0
              = (Ok tt,
                 mkStore (committed s0) (option_map (upsert u c) (working s0)),
                 [TxRun query u c; Print (LineGraphUpdated u c)])) /\
  exists s' pre,
    iteration data o s
    = (Ok tt, s',
       pre ++ [TxBegin; TxRun query u c; Print (LineGraphUpdated u c);
               TxCommit; SessionClose; Print (LineNeo4jError e)]) /\
    committed s' = committed s.
Proof.
  intros Hu Hc F. split; [reflexivity|].
  destruct (iteration_write data o s u c Hu Hc) as (s' & E & G).
  rewrite F in G. simpl in G.
  exists s',
    (Print (LineReceived data) :: SessionOpen :: WriteTransaction
     :: flat_map (fun f => attempt_events (Fails f) u c) (retried o)).
  split; [|exact G].
  rewrite E. unfold transaction_events. rewrite F. simpl.
  now rewrite <- app_assoc.
Qed.

(** ** The claims on concrete runs *)

Lemma upsert_idempotent_delivery_witness :
  crashed (run (map (pair alice_electronics) [reachable; reachable; reachable])
               empty_store) = false /\
  wf (committed (final_store
                   (run (map (pair alice_electronics)
                             [reachable; reachable; reachable]) empty_store))) /\
  committed (final_store
               (run (map (pair alice_electronics)
                         [reachable; reachable; reachable]) empty_store))
  = upsert (JStr "alice") (JStr "electronics") (committed empty_store) /\
  exists i j,
    match_nodes User (JStr "alice")
      (committed (final_store
                    (run (map (pair alice_electronics)
                              [reachable; reachable; reachable]) empty_store)))
    = [i] /\
    match_nodes Category (JStr "electronics")
      (committed (final_store
                    (run (map (pair alice_electronics)
                              [reachable; reachable; reachable]) empty_store)))
    = [j] /\
    count_edges i j
      (committed (final_store
                    (run (map (pair alice_electronics)
                              [reachable; reachable; reachable]) empty_store)))
    = 1.
Proof.
  apply (upsert_idempotent_delivery PyLib.decode PyLib.loads alice_electronics
           (JObj [("user", JStr "alice"); ("category", JStr "electronics")])
           "alice" "electronics" [reachable; reachable; reachable] empty_store).
  - reflexivity.
  - reflexivity.
  - reflexivity.
  - simpl. lia.
  - repeat constructor.
  - exact wf_empty.
Defined.

(** C2 as stated fails: after a payload that is not JSON the loop does not
    go on to the next message.  The run ends with the decoding error, the
    event of alice that follows is never received and the graph stays
    empty, while the same event delivered alone is written. *)
Lemma decode_failure_continues_counterexample :
  value_deserializer PyLib.decode PyLib.loads truncated = Raise JSONDecodeError /\
  run [(truncated, reachable); (alice_electronics, reachable)] empty_store
  = Crashed JSONDecodeError empty_store [] /\
  committed (final_store
               (run [(alice_electronics, reachable)] empty_store))
  = mkGraph [mkNode 1 User (JStr "alice"); mkNode 2 Category (JStr "electronics")]
            [mkEdge 1 2].
Proof. repeat split. Qed.

Lemma decode_failure_ends_loop_witness :
  run [(truncated, reachable); (alice_electronics, reachable)] empty_store
  = Crashed JSONDecodeError empty_store [].
Proof.
  apply (decode_failure_ends_loop PyLib.decode PyLib.loads truncated reachable
           [(alice_electronics, reachable)] empty_store JSONDecodeError).
  reflexivity.
Defined.

Lemma missing_key_skipped_witness :
  exists k,
    (k = "user" \/ k = "category") /\
    run [(no_category, reachable); (alice_electronics, reachable)] empty_store
    = after [Print (LineReceived (JObj [("user", JStr "alice")]));
             SessionOpen; SessionClose; Print (LineNeo4jError (KeyError k))]
            (run [(alice_electronics, reachable)] empty_store).
Proof.
  apply (missing_key_skipped PyLib.decode PyLib.loads no_category reachable
           [(alice_electronics, reachable)] empty_store [("user", JStr "alice")]).
  - reflexivity.
  - right. reflexivity.
Defined.

Lemma write_failure_isolated_witness :
  exists t,
    t = Print (LineReceived
                 (JObj [("user", JStr "alice"); ("category", JStr "books")]))
        :: SessionOpen :: WriteTransaction
        :: transaction_events unreachable (JStr "alice") (JStr "books")
        ++ [SessionClose;
            Print (LineNeo4jError
                     (failure_exn (BeginFails (Neo4jError "ServiceUnavailable"))))] /\
    filter is_write_transaction t = [WriteTransaction] /\
    events (run [(alice_books, unreachable); (bob_books, reachable)] empty_store)
    = t ++ events (run [(bob_books, reachable)] empty_store) /\
    committed (final_store
                 (run [(alice_books, unreachable); (bob_books, reachable)]
                      empty_store))
    = committed (final_store (run [(bob_books, reachable)] empty_store)) /\
    crashed (run [(alice_books, unreachable); (bob_books, reachable)] empty_store)
    = crashed (run [(bob_books, reachable)] empty_store).
Proof.
  apply (write_failure_isolated PyLib.decode PyLib.loads alice_books unreachable
           [(bob_books, reachable)] empty_store
           (JObj [("user", JStr "alice"); ("category", JStr "books")])
           (JStr "alice") (JStr "books")
           (BeginFails (Neo4jError "ServiceUnavailable")));
    reflexivity.
Defined.

Lemma distinct_events_isolated_witness :
  exists g' i1 j1 i2 j2,
    g' = committed (final_store
                      (run [(alice_electronics, reachable); (bob_books, reachable)]
                           empty_store)) /\
    match_nodes User (JStr "alice") g' = [i1] /\
    match_nodes Category (JStr "electronics") g' = [j1] /\
    match_nodes User (JStr "bob") g' = [i2] /\
    match_nodes Category (JStr "books") g' = [j2] /\
    i1 <> i2 /\ j1 <> j2 /\
    count_edges i1 j1 g' = 1 /\
    count_edges i2 j2 g' = 1 /\
    count_edges i1 j2 g' = count_edges i1 j2 (committed empty_store) /\
    count_edges i2 j1 g' = count_edges i2 j1 (committed empty_store) /\
    (committed empty_store = empty_graph ->
     List.length (nodes g') = 4 /\ edges g' = [mkEdge i1 j1; mkEdge i2 j2]).
Proof.
  apply (distinct_events_isolated PyLib.decode PyLib.loads
           alice_electronics bob_books
           (JObj [("user", JStr "alice"); ("category", JStr "electronics")])
           (JObj [("user", JStr "bob"); ("category", JStr "books")])
           "alice" "electronics" "bob" "books" reachable reachable empty_store);
    try reflexivity; try discriminate.
  exact wf_empty.
Defined.

Lemma same_user_two_categories_witness :
  exists g' i j1 j2,
    g' = committed (final_store
                      (run [(alice_electronics, reachable); (alice_books, reachable)]
                           empty_store)) /\
    crashed (run [(alice_electronics, reachable); (alice_books, reachable)]
                 empty_store) = false /\
    match_nodes User (JStr "alice") g' = [i] /\
    match_nodes Category (JStr "electronics") g' = [j1] /\
    match_nodes Category (JStr "books") g' = [j2] /\
    j1 <> j2 /\
    count_edges i j1 g' = 1 /\
    count_edges i j2 g' = 1.
Proof.
  apply (same_user_two_categories PyLib.decode PyLib.loads
           alice_electronics alice_books
           (JObj [("user", JStr "alice"); ("category", JStr "electronics")])
           (JObj [("user", JStr "alice"); ("category", JStr "books")])
           "alice" "electronics" "books" reachable reachable empty_store);
    try reflexivity; try discriminate.
  exact wf_empty.
Defined.

Lemma extra_fields_ignored_witness :
  fst (iteration
         (JObj [("user", JStr "alice"); ("category", JStr "electronics")])
         reachable empty_store)
  = fst (iteration
           (JObj [("id", JInt 7); ("user", JStr "alice");
                  ("price", JArr [JInt 10; JStr "EUR"]);
                  ("category", JStr "electronics")])
           reachable empty_store) /\
  exists t,
    snd (iteration
           (JObj [("user", JStr "alice"); ("category", JStr "electronics")])
           reachable empty_store)
    = Print (LineReceived
               (JObj [("user", JStr "alice"); ("category", JStr "electronics")]))
      :: t /\
    snd (iteration
           (JObj [("id", JInt 7); ("user", JStr "alice");
                  ("price", JArr [JInt 10; JStr "EUR"]);
                  ("category", JStr "electronics")])
           reachable empty_store)
    = Print (LineReceived
               (JObj [("id", JInt 7); ("user", JStr "alice");
                      ("price", JArr [JInt 10; JStr "EUR"]);
                      ("category", JStr "electronics")]))
      :: t.
Proof.
  apply (extra_fields_ignored
           (JObj [("user", JStr "alice"); ("category", JStr "electronics")])
           (JObj [("id", JInt 7); ("user", JStr "alice");
                  ("price", JArr [JInt 10; JStr "EUR"]);
                  ("category", JStr "electronics")])
           reachable empty_store);
    reflexivity.
Defined.

Example loads_alice_electronics_priced :
  value_deserializer PyLib.decode PyLib.loads alice_electronics_priced
  = Ok (JObj [("id", JInt 7); ("user", JStr "alice");
              ("price", JArr [JInt 10; JStr "EUR"]);
              ("category", JStr "electronics")]).
Proof. reflexivity. Qed.

Lemma session_scoped_witness :
  exists s' body tail,
    iteration (JObj [("user", JStr "alice"); ("category", JStr "books")])
              commit_lost empty_store
    = (Ok tt, s',
       Print (LineReceived
                (JObj [("user", JStr "alice"); ("category", JStr "books")]))
       :: SessionOpen :: WriteTransaction :: body ++ SessionClose :: tail) /\
    Forall (fun ev => is_tx_event ev = true) body /\
    ((final commit_lost = Commits /\ tail = [] /\
      committed s' = upsert (JStr "alice") (JStr "books") (committed empty_store)) \/
     (exists f, final commit_lost = Fails f /\
                tail = [Print (LineNeo4jError (failure_exn f))] /\
                committed s' = committed empty_store)).
Proof.
  apply (session_scoped
           (JObj [("user", JStr "alice"); ("category", JStr "books")])
           commit_lost empty_store (JStr "alice") (JStr "books"));
    reflexivity.
Defined.

Example loads_not_strings :
  value_deserializer PyLib.decode PyLib.loads not_strings
  = Ok (JObj [("user", JInt 42); ("category", JNull)]).
Proof. reflexivity. Qed.

Lemma no_type_validation_witness :
  In WriteTransaction
     (snd (iteration (JObj [("user", JInt 42); ("category", JNull)])
                     reachable empty_store)) /\
  In TxBegin
     (snd (iteration (JObj [("user", JInt 42); ("category", JNull)])
                     reachable empty_store)) /\
  (forall q a b,
      In (TxRun q a b)
         (snd (iteration (JObj [("user", JInt 42); ("category", JNull)])
                         reachable empty_store)) ->
      q = query /\ a = JInt 42 /\ b = JNull) /\
  ((forall e, final reachable <> Fails (BeginFails e)) ->
   In (TxRun query (JInt 42) JNull)
      (snd (iteration (JObj [("user", JInt 42); ("category", JNull)])
                      reachable empty_store))).
Proof.
  apply (no_type_validation (JObj [("user", JInt 42); ("category", JNull)])
           reachable empty_store (JInt 42) JNull);
    reflexivity.
Defined.

Lemma success_line_precedes_commit_witness :
  (forall s0,
      update_graph None (JStr "alice") (JStr "books") s0
      = (Ok tt,
         mkStore (committed s0)
                 (option_map (upsert (JStr "alice") (JStr "books")) (working s0)),
         [TxRun query (JStr "alice") (JStr "books");
          Print (LineGraphUpdated (JStr "alice") (JStr "books"))])) /\
  exists s' pre,
    iteration (JObj [("user", JStr "alice"); ("category", JStr "books")])
              commit_lost empty_store
    = (Ok tt, s',
       pre ++ [TxBegin; TxRun query (JStr "alice") (JStr "books");
               Print (LineGraphUpdated (JStr "alice") (JStr "books"));
               TxCommit; SessionClose;
               Print (LineNeo4jError (Neo4jError "SessionExpired"))]) /\
    committed s' = committed empty_store.
Proof.
  apply (success_line_precedes_commit
           (JObj [("user", JStr "alice"); ("category", JStr "books")])
           commit_lost empty_store (JStr "alice") (JStr "books")
           (Neo4jError "SessionExpired"));
    reflexivity.
Defined.

Example run_commit_lost :
  run [(alice_books, commit_lost)] empty_store
  = Waiting empty_store
      [Print (LineReceived
                (JObj [("user", JStr "alice"); ("category", JStr "books")]));
       SessionOpen; WriteTransaction; TxBegin;
       TxRun query (JStr "alice") (JStr "books");
       Print (LineGraphUpdated (JStr "alice") (JStr "books"));
       TxCommit; SessionClose;
       Print (LineNeo4jError (Neo4jError "SessionExpired"))].
Proof. reflexivity. Qed.

(** * Further properties of the loop *)

(** ** The query only adds, on any graph *)

Lemma match_nodes_app (l : label) (v : json) (g g' : graph) (ns : list node) :
  nodes g' = nodes g ++ ns ->
  match_nodes l v g' = match_nodes l v g ++ map nid (filter (is_named l v) ns).
Proof. unfold match_nodes. intros ->. now rewrite filter_app, map_app. Qed.

Lemma match_nodes_grow (l : label) (v : json) (g g' : graph) (ns : list node)
      (i : nat) :
  nodes g' = nodes g ++ ns ->
  In i (match_nodes l v g) -> In i (match_nodes l v g').
Proof.
  intros E H. rewrite (match_nodes_app l v g g' ns E). apply in_or_app. now left.
Qed.

Lemma labelled_grow (l : label) (g g' : graph) (ns : list node) (i : nat) :
  nodes g' = nodes g ++ ns -> In i (labelled l g) -> In i (labelled l g').
Proof.
  unfold labelled. intros -> H. rewrite filter_app, map_app.
  apply in_or_app. now left.
Qed.

Lemma match_nodes_labelled (l : label) (v : json) (g : graph) (i : nat) :
  In i (match_nodes l v g) -> In i (labelled l g).
Proof.
  intros H. apply in_match_nodes in H as (n & Hn & <- & L & _).
  unfold labelled. apply in_map. apply filter_In. split; [exact Hn|].
  now apply label_eqb_eq.
Qed.

Lemma merge_node_grows (l : label) (v : json) (g : graph) :
  exists ns,
    nodes (fst (merge_node l v g)) = nodes g ++ ns /\
    edges (fst (merge_node l v g)) = edges g /\
    Forall (fun n => nlabel n = l /\ nname n = v) ns /\
    incl (snd (merge_node l v g)) (match_nodes l v (fst (merge_node l v g))).
Proof.
  unfold merge_node. destruct (match_nodes l v g) as [| k r] eqn:E.
  - exists [mkNode (fresh_id g) l v]. simpl. repeat apply conj; auto.
    intros i [<- | []]. rewrite match_nodes_add_node.
    apply in_or_app. right.
    rewrite (proj2 (is_named_mkNode l l v v (fresh_id g)) (conj eq_refl eq_refl)).
    now left.
  - exists []. simpl. rewrite app_nil_r, E. repeat apply conj; auto using incl_refl.
Qed.

Lemma merge_category_rows_grows (v : json) (us : list nat) (g : graph) :
  exists ns,
    nodes (fst (merge_category_rows v us g)) = nodes g ++ ns /\
    edges (fst (merge_category_rows v us g)) = edges g /\
    Forall (fun n => nlabel n = Category /\ nname n = v) ns /\
    forall i j, In (i, j) (snd (merge_category_rows v us g)) ->
                In i us /\
                In j (match_nodes Category v (fst (merge_category_rows v us g))).
Proof.
  revert g. induction us as [| u us IH]; intros g; simpl.
  - exists []. rewrite app_nil_r. repeat apply conj; auto. intros i j [].
  - destruct (merge_node_grows Category v g) as (n1 & N1 & E1 & F1 & I1).
    destruct (merge_node Category v g) as [g1 cs]. simpl in N1, E1, I1.
    destruct (IH g1) as (n2 & N2 & E2 & F2 & I2).
    destruct (merge_category_rows v us g1) as [g2 rows]. simpl in *.
    exists (n1 ++ n2). repeat apply conj.
    + now rewrite N2, N1, app_assoc.
    + now rewrite E2.
    + apply Forall_app. now split.
    + intros i j H. apply in_app_or in H as [H | H].
      * apply in_map_iff in H as (k & K & Hk). injection K as <- <-.
        split; [now left|].
        apply (match_nodes_grow Category v g1 g2 n2 k N2). now apply I1.
      * destruct (I2 i j H). split; [now right | assumption].
Qed.

Lemma merge_edge_rows_grows (rows : list (nat * nat)) (g : graph) :
  nodes (merge_edge_rows rows g) = nodes g /\
  exists es,
    edges (merge_edge_rows rows g) = edges g ++ es /\
    Forall (fun e => In (esrc e, edst e) rows) es.
Proof.
  revert g. induction rows as [| [i j] rows IH]; intros g; simpl.
  - split; [reflexivity|]. exists []. now rewrite app_nil_r.
  - destruct (IH (merge_edge i j g)) as (N & es & E & F).
    assert (M : nodes (merge_edge i j g) = nodes g /\
                (edges (merge_edge i j g) = edges g \/
                 edges (merge_edge i j g) = edges g ++ [mkEdge i j])).
    { unfold merge_edge. destruct (has_edge i j g); simpl; auto. }
    destruct M as (N' & [E' | E']).
    + split; [congruence|]. exists es. split; [congruence|].
      eapply Forall_impl; [|exact F]. intros e He. now right.
    + split; [congruence|]. exists (mkEdge i j :: es). split.
      * rewrite E, E'. now rewrite <- app_assoc.
      * constructor; [now left|].
        eapply Forall_impl; [|exact F]. intros e He. now right.
Qed.

(** One committed run of the query keeps every node and relationship in
    place and adds, after them, only nodes named by its two parameters and
    relationships between such nodes. *)
Lemma upsert_grows (u c : json) (g : graph) :
  exists ns es,
    nodes (upsert u c g) = nodes g ++ ns /\
    edges (upsert u c g) = edges g ++ es /\
    Forall (fun n => (nlabel n = User /\ nname n = u) \/
                     (nlabel n = Category /\ nname n = c)) ns /\
    Forall (fun e => In (esrc e) (match_nodes User u (upsert u c g)) /\
                     In (edst e) (match_nodes Category c (upsert u c g))) es.
Proof.
  unfold upsert.
  destruct (merge_node_grows User u g) as (n1 & N1 & E1 & F1 & I1).
  destruct (merge_node User u g) as [g1 us]. simpl in N1, E1, I1.
  destruct (merge_category_rows_grows c us g1) as (n2 & N2 & E2 & F2 & I2).
  destruct (merge_category_rows c us g1) as [g2 rows]. simpl in N2, E2, I2.
  destruct (merge_edge_rows_grows rows g2) as (N3 & es & E3 & F3).
  exists (n1 ++ n2), es. repeat apply conj.
  - now rewrite N3, N2, N1, app_assoc.
  - now rewrite E3, E2, E1.
  - apply Forall_app. split.
    + eapply Forall_impl; [|exact F1]. intros n H. now left.
    + eapply Forall_impl; [|exact F2]. intros n H. now right.
  - eapply Forall_impl; [|exact F3]. intros e He.
    destruct (I2 _ _ He) as [Hi Hj].
    rewrite !(match_nodes_same_nodes _ _ _ _ N3). split; [|exact Hj].
    apply (match_nodes_grow User u g1 g2 n2 _ N2). now apply I1.
Qed.

(** ** A run as a sequence of iterations *)

Lemma after_after (t t' : list event) (o : outcome) :
  after t (after t' o) = after (t ++ t') o.
Proof. destruct o; simpl; now rewrite app_assoc. Qed.

Lemma after_nil (o : outcome) : after [] o = o.
Proof. now destruct o. Qed.

Lemma consume_applied
      (decode_utf8 : list byte -> result string)
      (json_loads : string -> result json) (ms : list message) (s : store) :
  committed (final_store (consume decode_utf8 json_loads ms s))
  = applied (received decode_utf8 json_loads ms) (committed s).
Proof.
  revert s. induction ms as [| [x o] rest IH]; intros s; [reflexivity|].
  destruct (value_deserializer decode_utf8 json_loads x) as [data | e] eqn:D.
  - destruct (consume_decoded decode_utf8 json_loads x o rest s data D)
      as (s1 & t1 & _ & G & L).
    rewrite L, final_store_after, IH, G. simpl. now rewrite D.
  - rewrite (consume_raise decode_utf8 json_loads x o rest s e D).
    simpl. now rewrite D.
Qed.

Lemma in_received
      (decode_utf8 : list byte -> result string)
      (json_loads : string -> result json) (ms : list message)
      (d : json) (o : write_oracle) :
  In (d, o) (received decode_utf8 json_loads ms) ->
  exists x, In (x, o) ms /\ value_deserializer decode_utf8 json_loads x = Ok d.
Proof.
  induction ms as [| [x o'] rest IH]; simpl; [tauto|].
  destruct (value_deserializer decode_utf8 json_loads x) as [data |] eqn:D;
    [|intros []].
  intros [E | H].
  - injection E as -> ->. eauto.
  - destruct (IH H) as (y & Hy & Dy). eauto.
Qed.

Lemma step_graph_wf (d : json) (o : write_oracle) (g : graph) :
  wf g -> wf (step_graph d o g).
Proof.
  intros W. unfold step_graph.
  destruct (subscript d "user"); [|exact W].
  destruct (subscript d "category"); [|exact W].
  destruct (final o); simpl; [exact W | now apply upsert_wf].
Qed.

Lemma applied_wf (ds : list (json * write_oracle)) (g : graph) :
  wf g -> wf (applied ds g).
Proof.
  revert g. induction ds as [| d ds IH]; intros g W; [exact W|].
  apply IH. now apply step_graph_wf.
Qed.

(** What an iteration adds to the committed graph. *)
Lemma step_graph_grows (d : json) (o : write_oracle) (g : graph) :
  exists ns es,
    nodes (step_graph d o g) = nodes g ++ ns /\
    edges (step_graph d o g) = edges g ++ es /\
    Forall (fun n => final o = Commits /\
                     ((nlabel n = User /\ subscript d "user" = Ok (nname n)) \/
                      (nlabel n = Category /\
                       subscript d "category" = Ok (nname n)))) ns /\
    Forall (fun e => exists u c,
                final o = Commits /\
                subscript d "user" = Ok u /\ subscript d "category" = Ok c /\
                In (esrc e) (match_nodes User u (step_graph d o g)) /\
                In (edst e) (match_nodes Category c (step_graph d o g))) es.
Proof.
  unfold step_graph.
  destruct (subscript d "user") as [u |];
    [|exists [], []; rewrite !app_nil_r; auto].
  destruct (subscript d "category") as [c |];
    [|exists [], []; rewrite !app_nil_r; auto].
  destruct (final o) as [f |]; simpl;
    [exists [], []; rewrite !app_nil_r; auto|].
  destruct (upsert_grows u c g) as (ns & es & N & E & Fn & Fe).
  exists ns, es. repeat apply conj; auto.
  - eapply Forall_impl; [|exact Fn]. intros n [[L V] | [L V]]; subst; auto.
  - eapply Forall_impl; [|exact Fe]. intros e [Hs Hd]. exists u, c. auto.
Qed.

Lemma applied_grows (ds : list (json * write_oracle)) (g : graph) :
  exists ns es,
    nodes (applied ds g) = nodes g ++ ns /\
    edges (applied ds g) = edges g ++ es /\
    Forall (fun n => exists d o,
                In (d, o) ds /\ final o = Commits /\
                ((nlabel n = User /\ subscript d "user" = Ok (nname n)) \/
                 (nlabel n = Category /\
                  subscript d "category" = Ok (nname n)))) ns /\
    Forall (fun e => exists d o u c,
                In (d, o) ds /\ final o = Commits /\
                subscript d "user" = Ok u /\ subscript d "category" = Ok c /\
                In (esrc e) (match_nodes User u (applied ds g)) /\
                In (edst e) (match_nodes Category c (applied ds g))) es.
Proof.
  revert g. induction ds as [| [d o] ds IH]; intros g.
  - exists [], []. simpl. rewrite !app_nil_r. auto.
  - simpl applied. change (applied ((d, o) :: ds) g)
      with (applied ds (step_graph d o g)).
    destruct (step_graph_grows d o g) as (n1 & e1 & N1 & E1 & Fn1 & Fe1).
    destruct (IH (step_graph d o g)) as (n2 & e2 & N2 & E2 & Fn2 & Fe2).
    exists (n1 ++ n2), (e1 ++ e2). repeat apply conj.
    + now rewrite N2, N1, app_assoc.
    + now rewrite E2, E1, app_assoc.
    + apply Forall_app. split.
      * eapply Forall_impl; [|exact Fn1]. intros n [F H].
        exists d, o. split; [now left | auto].
      * eapply Forall_impl; [|exact Fn2]. intros n (d' & o' & I & H).
        exists d', o'. split; [now right | auto].
    + apply Forall_app. split.
      * eapply Forall_impl; [|exact Fe1].
        intros e (u & c & F & Hu & Hc & Hs & Hd).
        exists d, o, u, c. repeat apply conj; auto; [now left | |].
        -- now apply (match_nodes_grow User u _ _ n2 _ N2).
        -- now apply (match_nodes_grow Category c _ _ n2 _ N2).
      * eapply Forall_impl; [|exact Fe2].
        intros e (d' & o' & u & c & I & H).
        exists d', o', u, c. split; [now right | auto].
Qed.

(** ** What a whole run does to the graph *)






Lemma consume_append
        (decode_utf8 : list byte -> result string)
        (json_loads : string -> result json) (ms1 ms2 : list message)
        (s : store) :
  consume decode_utf8 json_loads (ms1 ++ ms2) s
  = match consume decode_utf8 json_loads ms1 s with
    | Waiting s1 t1 => after t1 (consume decode_utf8 json_loads ms2 s1)
    | Crashed e s1 t1 => Crashed e s1 t1
    end.
Proof.
  revert s. induction ms1 as [| [x o] rest IH]; intros s.
  - simpl. now rewrite after_nil.
  - simpl. destruct (value_deserializer decode_utf8 json_loads x) as [data | e];
      [|reflexivity].
    destruct (iteration data o s) as [[[[] | e] s1] t1]; [|reflexivity].
    rewrite IH.
    destruct (consume decode_utf8 json_loads rest s1) as [s2 t2 | e s2 t2];
      simpl; [|reflexivity].
    now rewrite after_after.
Qed.


(** X4 - Runs compose.  Processing [ms1] followed by [ms2] is processing
    [ms1] and, if that run is still waiting, processing [ms2] from the
    store it reached; if the run of [ms1] ended with an exception, [ms2] is
    never looked at. *)
Theorem consume_app
        (decode_utf8 : list byte -> result string)
        (json_loads : string -> result json) (ms1 ms2 : list message)
        (s : store) :
  consume decode_utf8 json_loads (ms1 ++ ms2) s
  = match consume decode_utf8 json_loads ms1 s with
    | Waiting s1 t1 => after t1 (consume decode_utf8 json_loads ms2 s1)
    | Crashed e s1 t1 => Crashed e s1 t1
    end.
Proof. apply consume_append. Qed.


(** X6 - While the store is down, events are consumed and lost.  If the
    write made for every message fails, the run leaves the committed graph
    exactly as it was, however many events were delivered; none of them is
    kept for later. *)
Theorem store_down_graph_unchanged
        (decode_utf8 : list byte -> result string)
        (json_loads : string -> result json) (ms : list message) (s : store) :
  Forall (fun m => exists f, final (snd m) = Fails f) ms ->
  committed (final_store (consume decode_utf8 json_loads ms s)) = committed s /\
  List.length (filter is_write_transaction
                 (events (consume decode_utf8 json_loads ms s)))
  <= List.length ms.
Proof.
  intros F. split.
  - rewrite consume_applied.
    assert (A : Forall (fun d => exists f, final (snd d) = Fails f)
                       (received decode_utf8 json_loads ms)).
    { apply Forall_forall. intros [d o] I.
      destruct (in_received _ _ _ _ _ I) as (x & Hx & _).
      rewrite Forall_forall in F. exact (F (x, o) Hx). }
    generalize (committed s). induction A as [| [d o] ds [f Hf] _ IH]; intros g.
    + reflexivity.
    + change (applied ((d, o) :: ds) g) with (applied ds (step_graph d o g)).
      rewrite IH. unfold step_graph. simpl in Hf. rewrite Hf.
      destruct (subscript d "user"); [|reflexivity].
      now destruct (subscript d "category").
  - clear F. revert s. induction ms as [| [x o] rest IH]; intros s; [simpl; lia|].
    destruct (value_deserializer decode_utf8 json_loads x) as [data | e] eqn:D.
    + destruct (consume_decoded decode_utf8 json_loads x o rest s data D)
        as (s1 & t1 & I & _ & L).
      rewrite L, events_after, filter_app, length_app.
      specialize (IH s1).
      assert (T : List.length (filter is_write_transaction t1) <= 1).
      { destruct (subscript data "user") as [u | e] eqn:Hu;
          [destruct (subscript data "category") as [c | e] eqn:Hc|].
        - destruct (iteration_write data o s u c Hu Hc) as (s' & E & _).
          rewrite E in I. injection I as _ <-. simpl.
          rewrite filter_app.
          rewrite (tx_event_not_write_transaction _ (transaction_events_tx o u c)).
          simpl. destruct (final o); simpl; lia.
        - rewrite (iteration_skip data o s e) in I by (right; eauto).
          injection I as _ <-. simpl. lia.
        - rewrite (iteration_skip data o s e) in I by now left.
          injection I as _ <-. simpl. lia. }
      simpl List.length. lia.
    + rewrite (consume_raise decode_utf8 json_loads x o rest s e D). simpl. lia.
Qed.

(** ** Sessions and queries over a whole run *)




(** X8 - The query text never depends on the input.  Every [run] issued
    in any run of the loop carries the one fixed query, and its two
    parameters are the [user] and [category] values of one delivered event:
    the values travel as parameters and are never made part of the query. *)
Theorem runs_carry_the_fixed_query
        (decode_utf8 : list byte -> result string)
        (json_loads : string -> result json) (ms : list message) (s : store)
        (q : string) (a b : json) :
  In (TxRun q a b) (events (consume decode_utf8 json_loads ms s)) ->
  q = query /\
  exists x o d,
    In (x, o) ms /\
    value_deserializer decode_utf8 json_loads x = Ok d /\
    subscript d "user" = Ok a /\ subscript d "category" = Ok b.
Proof.
  revert s. induction ms as [| [x o] rest IH]; intros s; [intros []|].
  destruct (value_deserializer decode_utf8 json_loads x) as [data | e] eqn:D.
  - destruct (consume_decoded decode_utf8 json_loads x o rest s data D)
      as (s1 & t1 & I & _ & L).
    rewrite L, events_after. intros H. apply in_app_or in H as [H | H].
    + destruct (subscript data "user") as [u | e] eqn:Hu;
        [destruct (subscript data "category") as [c | e] eqn:Hc|].
      * destruct (iteration_write data o s u c Hu Hc) as (s' & E & _).
        rewrite E in I. injection I as _ <-.
        destruct H as [H | [H | [H | H]]]; try discriminate H.
        apply in_app_or in H as [H | H].
        -- apply transaction_events_run in H as (-> & -> & ->).
           split; [reflexivity|]. exists x, o, data.
           repeat apply conj; auto. now left.
        -- destruct H as [H | H]; [discriminate H|].
           destruct (final o); simpl in H; [|contradiction].
           destruct H as [H | []]. discriminate H.
      * rewrite (iteration_skip data o s e) in I by (right; eauto).
        injection I as _ <-.
        repeat (destruct H as [H | H]; try discriminate H). contradiction.
      * rewrite (iteration_skip data o s e) in I by now left.
        injection I as _ <-.
        repeat (destruct H as [H | H]; try discriminate H). contradiction.
    + destruct (IH s1 H) as (Q & y & o' & d & Hy & Hd).
      split; [exact Q|]. exists y, o', d. split; [now right | exact Hd].
  - rewrite (consume_raise decode_utf8 json_loads x o rest s e D). intros [].
Qed.

(** X9 - Relationships stay typed.  If every relationship of the initial
    graph goes from a User node to a Category node, so does every
    relationship after any run. *)
Theorem relationships_stay_typed
        (decode_utf8 : list byte -> result string)
        (json_loads : string -> result json) (ms : list message) (s : store) :
  typed (committed s) ->
  typed (committed (final_store (consume decode_utf8 json_loads ms s))).
Proof.
  intros T. rewrite consume_applied.
  destruct (applied_grows (received decode_utf8 json_loads ms) (committed s))
    as (ns & es & N & E & _ & Fe).
  intros e He. rewrite E in He. apply in_app_or in He as [He | He].
  - destruct (T e He) as [Hs Hd].
    split; eapply labelled_grow; eauto.
  - rewrite Forall_forall in Fe.
    destruct (Fe e He) as (d & o & u & c & _ & _ & _ & _ & Hs & Hd).
    split; eapply match_nodes_labelled; eauto.
Qed.

(** ** Every committed event is in the graph once, and stays so *)










(** ** The further properties on concrete runs *)



Lemma store_down_graph_unchanged_witness :
  committed (final_store
               (run [(alice_electronics, unreachable); (bob_books, commit_lost)]
                    empty_store))
  = committed empty_store /\
  List.length
    (filter is_write_transaction
       (events (run [(alice_electronics, unreachable); (bob_books, commit_lost)]
                    empty_store)))
  <= List.length [(alice_electronics, unreachable); (bob_books, commit_lost)].
Proof.
  apply (store_down_graph_unchanged PyLib.decode PyLib.loads
           [(alice_electronics, unreachable); (bob_books, commit_lost)]
           empty_store).
  constructor; [eexists; reflexivity|].
  constructor; [eexists; reflexivity|].
  constructor.
Defined.

Lemma runs_carry_the_fixed_query_witness :
  query = query /\
  exists x o d,
    In (x, o) [(not_strings, reachable); (alice_books, commit_lost)] /\
    value_deserializer PyLib.decode PyLib.loads x = Ok d /\
    subscript d "user" = Ok (JStr "alice") /\
    subscript d "category" = Ok (JStr "books").
Proof.
  apply (runs_carry_the_fixed_query PyLib.decode PyLib.loads
           [(not_strings, reachable); (alice_books, commit_lost)] empty_store
           query (JStr "alice") (JStr "books")).
  vm_compute. do 12 right. left. reflexivity.
Defined.

Lemma relationships_stay_typed_witness :
  typed (committed
           (final_store
              (run [(alice_electronics, reachable); (bob_books, reachable);
                    (alice_books, reachable)]
                   empty_store))).
Proof.
  apply (relationships_stay_typed PyLib.decode PyLib.loads
           [(alice_electronics, reachable); (bob_books, reachable);
            (alice_books, reachable)]
           empty_store).
  intros e [].
Defined.



Example run_mixed_stream :
  committed
    (final_store
       (run [(alice_electronics, reachable); (bob_books, unreachable);
             (a_list, reachable); (alice_books, reachable);
             (alice_electronics, reachable)]
            empty_store))
  = mkGraph [mkNode 1 User (JStr "alice"); mkNode 2 Category (JStr "electronics");
             mkNode 3 Category (JStr "books")]
            [mkEdge 1 2; mkEdge 1 3].
Proof. reflexivity. Qed.
